(** * Vue-Dashboard: bulk product form, circuit breaker and retry manager

    A shallow embedding of
    - the bulk product form's script (validateProduct, getFieldError,
      validateAll, createAllProducts),
    - [CircuitBreaker] of src/utils/circuitBreaker.js and
    - [RetryManager] of src/utils/retry.js
      (both given in guide/error-handling-strategy.md),
    followed by the properties established about them.

    Conventions.  A JavaScript string is a [string] whose characters are
    its code units (the Latin-1 range).  A JavaScript number is a rational
    [Q]; NaN appears only as the failure of a coercion to a number, and
    the infinities and rounding are outside the model.  Objects used as
    dictionaries are [gmap string _]. *)

From Stdlib Require Import QArith Qminmax Qpower ZArith Ascii String Lia.
From stdpp Require Import gmap strings list pretty.

Local Open Scope string_scope.

(** ** JavaScript values and the coercions the form relies on *)

Module JS.

Inductive value : Type :=
| undefined
| null
| boolean (b : bool)
| str (s : string)
| num (q : Q).

(** ToBoolean *)
Definition truthy (v : value) : bool :=
  match v with
  | undefined | null => false
  | boolean b => b
  | str s => negb (s =? "")
  | num q => negb (Qeq_bool q 0)
  end.

(** WhiteSpace and LineTerminator code units below 256: TAB, LF, VT, FF,
    CR, SP and NBSP.  The same set is the class \s of a regular
    expression. *)
Definition is_space (c : ascii) : bool :=
  let n := nat_of_ascii c in
  ((9 <=? n)%nat && (n <=? 13)%nat) || (n =? 32)%nat || (n =? 160)%nat.

Fixpoint trim_start (l : list ascii) : list ascii :=
  match l with
  | c :: l' => if is_space c then trim_start l' else l
  | [] => []
  end.

(** String.prototype.trim *)
Definition trim (s : string) : string :=
  string_of_list_ascii
    (rev (trim_start (rev (trim_start (list_ascii_of_string s))))).

(** [s.replace(pat, '')] with a string pattern: the first occurrence of
    [pat] is removed. *)
Fixpoint remove_first (pat s : string) : string :=
  if String.prefix pat s
  then String.substring (String.length pat)
                        (String.length s - String.length pat) s
  else match s with
       | EmptyString => EmptyString
       | String c s' => String c (remove_first pat s')
       end.

(** *** Regular expressions

    A matcher by derivatives for the fragment the form uses: character
    classes, concatenation, [+] and bounded repetition [{lo,hi}].  Both
    expressions of the form are anchored at [^] and [$] and carry no
    [m] flag, so [test] is a match of the whole string. *)
Inductive regex : Type :=
| re_none
| re_eps
| re_class (p : ascii -> bool)
| re_cat (r1 r2 : regex)
| re_alt (r1 r2 : regex)
| re_star (r : regex)
| re_rep (lo hi : nat) (r : regex).

Definition re_plus (r : regex) : regex := re_cat r (re_star r).

Fixpoint nullable (r : regex) : bool :=
  match r with
  | re_none => false
  | re_eps => true
  | re_class _ => false
  | re_cat r1 r2 => nullable r1 && nullable r2
  | re_alt r1 r2 => nullable r1 || nullable r2
  | re_star _ => true
  | re_rep lo _ r => (lo =? 0)%nat || nullable r
  end.

Fixpoint deriv (c : ascii) (r : regex) : regex :=
  match r with
  | re_none | re_eps => re_none
  | re_class p => if p c then re_eps else re_none
  | re_cat r1 r2 =>
      if nullable r1
      then re_alt (re_cat (deriv c r1) r2) (deriv c r2)
      else re_cat (deriv c r1) r2
  | re_alt r1 r2 => re_alt (deriv c r1) (deriv c r2)
  | re_star r1 => re_cat (deriv c r1) (re_star r1)
  | re_rep lo hi r1 =>
      match hi with
      | O => re_none
      | S hi' => re_cat (deriv c r1) (re_rep (pred lo) hi' r1)
      end
  end.

Fixpoint re_test (r : regex) (s : string) : bool :=
  match s with
  | EmptyString => nullable r
  | String c s' => re_test (deriv c r) s'
  end.

Definition in_range (lo hi : string) (c : ascii) : bool :=
  match lo, hi with
  | String a _, String b _ =>
      (nat_of_ascii a <=? nat_of_ascii c)%nat
      && (nat_of_ascii c <=? nat_of_ascii b)%nat
  | _, _ => false
  end.

Definition is_char (x : string) (c : ascii) : bool :=
  match x with
  | String a _ => Ascii.eqb a c
  | _ => false
  end.

(** [/^[A-Z0-9-_]{3,50}$/i]: with the [i] flag the class also holds the
    lower-case letters. *)
Definition code_class (c : ascii) : bool :=
  in_range "A" "Z" c || in_range "a" "z" c || in_range "0" "9" c
  || is_char "-" c || is_char "_" c.

Definition code_regex : regex := re_rep 3 50 (re_class code_class).

(** [/^[^\s@]+@[^\s@]+\.[^\s@]+$/] *)
Definition not_space_at (c : ascii) : bool :=
  negb (is_space c || is_char "@" c).

Definition email_regex : regex :=
  re_cat (re_plus (re_class not_space_at))
    (re_cat (re_class (is_char "@"))
       (re_cat (re_plus (re_class not_space_at))
          (re_cat (re_class (is_char "."))
             (re_plus (re_class not_space_at))))).

(** The two coercions between numbers and strings are left abstract:
    [number_to_string] is Number.prototype.toString and
    [string_to_number] is StringToNumber, [None] standing for NaN. *)
Section Coercions.
Variable number_to_string : Q -> string.
Variable string_to_number : string -> option Q.

(** ToString *)
Definition to_string (v : value) : string :=
  match v with
  | undefined => "undefined"
  | null => "null"
  | boolean b => if b then "true" else "false"
  | str s => s
  | num q => number_to_string q
  end.

(** ToNumber *)
Definition to_number (v : value) : option Q :=
  match v with
  | undefined => None
  | null => Some 0%Q
  | boolean b => Some (if b then 1%Q else 0%Q)
  | str s => string_to_number s
  | num q => Some q
  end.

(** [a <= b] and [a < b] where [b] is a number: false on NaN. *)
Definition le_num (a : value) (b : Q) : bool :=
  match to_number a with
  | Some q => Qle_bool q b
  | None => false
  end.

Definition lt_num (a : value) (b : Q) : bool :=
  match to_number a with
  | Some q => negb (Qle_bool b q)
  | None => false
  end.
End Coercions.

(** [value?.toString().trim()] taken as a condition: [undefined] and
    [null] short-circuit the chain to [undefined]; the string of a
    number or of a boolean is never blank. *)
Definition trimmed_truthy (v : value) : bool :=
  match v with
  | undefined | null => false
  | str s => negb (trim s =? "")
  | boolean _ | num _ => true
  end.

(** [value.length < n]: only a string has a length, and [undefined < n]
    is false. *)
Definition length_lt (v : value) (n : nat) : bool :=
  match v with
  | str s => (String.length s <? n)%nat
  | _ => false
  end.

(** [value !== ''] *)
Definition is_empty_str (v : value) : bool :=
  match v with
  | str s => s =? ""
  | _ => false
  end.

Definition is_nullish (v : value) : bool :=
  match v with
  | undefined | null => true
  | _ => false
  end.

(** An error object, with the properties the utilities read. *)
Record error : Type := {
  message : string;
  code : option string;
  statusCode : option Z
}.

(** [new Error(msg)] *)
Definition Error (msg : string) : error :=
  {| message := msg; code := None; statusCode := None |}.

End JS.

(** ** The bulk product form *)

Module BulkForm.
Import JS.

(** One entry of [formFields].  Of the properties an entry may carry,
    validation and [addEmptyProduct] read these ([field_default] is its
    property [default]); [min] and [field_default] are [None] and
    [undefined] when the entry does not give them. *)
Record field : Type := {
  key : string;
  label : string;
  type : string;
  required : bool;
  min : option Q;
  field_default : value
}.

Definition formFields : list field :=
  [ {| key := "name"; label := "Name *"; type := "text";
       required := true; min := None; field_default := undefined |};
    {| key := "price"; label := "Price *"; type := "number";
       required := true; min := Some 0%Q; field_default := undefined |};
    {| key := "code"; label := "Code"; type := "text";
       required := false; min := None; field_default := undefined |};
    {| key := "category"; label := "Category *"; type := "text";
       required := true; min := None; field_default := undefined |};
    {| key := "stock"; label := "Stock"; type := "number";
       required := false; min := Some 0%Q; field_default := undefined |} ].

(** [product[k]]: a property that is absent reads as [undefined]. *)
Definition get (product : gmap string value) (k : string) : value :=
  match product !! k with
  | Some v => v
  | None => undefined
  end.

(** One creation result: [{ index, product, success, error }].  [product]
    is the row as it is when the result is pushed. *)
Record result : Type := {
  index : nat;
  product : gmap string value;
  success : bool;
  error : option string
}.

Inductive api_outcome : Type :=
| api_ok
| api_throws (message : string).

(** The refs of the script, and the counter [productIdCounter]. *)
Record state : Type := {
  manualProducts : list (gmap string value);
  validationErrors : gmap string (gmap string string);
  creating : bool;
  creationResults : list result;
  createdCount : nat;
  totalToCreate : nat;
  showPasswords : gmap string bool;
  productIdCounter : nat
}.

Definition initial : state :=
  {| manualProducts := []; validationErrors := ∅; creating := false;
     creationResults := []; createdCount := 0; totalToCreate := 0;
     showPasswords := ∅; productIdCounter := 0 |}.

Definition set_validationErrors (v : gmap string (gmap string string))
    (st : state) : state :=
  {| manualProducts := manualProducts st; validationErrors := v;
     creating := creating st; creationResults := creationResults st;
     createdCount := createdCount st; totalToCreate := totalToCreate st;
     showPasswords := showPasswords st;
     productIdCounter := productIdCounter st |}.

Definition set_manualProducts (ps : list (gmap string value))
    (st : state) : state :=
  {| manualProducts := ps; validationErrors := validationErrors st;
     creating := creating st; creationResults := creationResults st;
     createdCount := createdCount st; totalToCreate := totalToCreate st;
     showPasswords := showPasswords st;
     productIdCounter := productIdCounter st |}.

Definition set_creating (b : bool) (st : state) : state :=
  {| manualProducts := manualProducts st;
     validationErrors := validationErrors st;
     creating := b; creationResults := creationResults st;
     createdCount := createdCount st; totalToCreate := totalToCreate st;
     showPasswords := showPasswords st;
     productIdCounter := productIdCounter st |}.

(** The world outside the form: the request bodies posted so far, in
    order.  [JSON.stringify(product)] is the product as it is then. *)
Record world : Type := { requests : list (gmap string value) }.

Section Script.
Variable number_to_string : Q -> string.
Variable string_to_number : string -> option Q.
(** The schema: the value of the ref [formFields]. *)
Variable fields : list field.
(** What [apiRequest] does with a body, given the bodies posted before
    it: it resolves, or it throws an error with a message. *)
Variable server : list (gmap string value) -> gmap string value -> api_outcome.

(** The body of the callback of [formFields.value.forEach] in
    [validateProduct], acting on the object [errors]. *)
Definition validateField (product : gmap string value)
    (errors : gmap string string) (f : field) : gmap string string :=
  let value := get product (key f) in
  if required f && negb (trimmed_truthy value) then
    <[key f := remove_first " *" (label f) +:+ " is required"]> errors
  else if type f =? "text" then
    let errors :=
      if truthy value && (key f =? "name") && length_lt value 3
      then <[key f := "Product name must be at least 3 characters"]> errors
      else errors in
    let errors :=
      if truthy value && (key f =? "code")
         && negb (re_test code_regex (to_string number_to_string value))
      then <[key f := "Invalid code format (3-50 chars, alphanumeric only)"]> errors
      else errors in
    errors
  else if type f =? "number" then
    if negb (is_nullish value) && negb (is_empty_str value) then
      let errors :=
        if (key f =? "price") && le_num string_to_number value 0
        then <[key f := "Price must be greater than 0"]> errors
        else errors in
      let errors :=
        match min f with
        | Some m =>
            if lt_num string_to_number value m
            then <[key f := "Must be " +:+ number_to_string m +:+ " or greater"]> errors
            else errors
        | None => errors
        end in
      errors
    else errors
  else if (type f =? "email") && truthy value
          && negb (re_test email_regex (to_string number_to_string value))
  then <[key f := "Invalid email format"]> errors
  else errors.

Definition validateProduct (product : gmap string value) : gmap string string :=
  foldl (validateField product) ∅ fields.

(** [Object.keys(o).length > 0] *)
Definition has_keys {A} (o : gmap string A) : bool := (0 <? size o)%nat.

Definition hasValidationErrors (product : gmap string value) : bool :=
  has_keys (validateProduct product).

Definition hasAnyValidationErrors (st : state) : bool :=
  existsb hasValidationErrors (manualProducts st).

(** [product.id] used as a property key. *)
Definition id_key (product : gmap string value) : string :=
  to_string number_to_string (get product "id").

(** [getFieldError(product, field)]: the message or [null] ([None]),
    and the state with the entry it may have stored. *)
Definition getFieldError (product : gmap string value) (f : string)
    (st : state) : option string * state :=
  let productId := id_key product in
  let st :=
    match validationErrors st !! productId with
    | Some _ => st
    | None =>
        let errors := validateProduct product in
        if has_keys errors
        then set_validationErrors (<[productId := errors]> (validationErrors st)) st
        else st
    end in
  (match validationErrors st !! productId ≫= (λ errs, errs !! f) with
   | Some m => if m =? "" then None else Some m
   | None => None
   end, st).

(** The object [newValidationErrors] that [validateAll] builds. *)
Definition collectErrors (ps : list (gmap string value))
    : gmap string (gmap string string) :=
  foldl (λ acc product,
           let errors := validateProduct product in
           if has_keys errors then <[id_key product := errors]> acc else acc)
        ∅ ps.

Definition validateAll (st : state) : bool * state :=
  let newValidationErrors := collectErrors (manualProducts st) in
  ((size newValidationErrors =? 0)%nat,
   set_validationErrors newValidationErrors st).

(** The assignment [product[field.key] = v] that [v-model] performs on
    the product of row [i] when its input changes. *)
Definition editField (i : nat) (k : string) (v : value) (st : state) : state :=
  match manualProducts st !! i with
  | Some product =>
      set_manualProducts (<[i := <[k := v]> product]> (manualProducts st)) st
  | None => st
  end.

(** The callback of [forEach] in [addEmptyProduct]. *)
Definition emptyField (product : gmap string value) (f : field)
    : gmap string value :=
  if type f =? "checkbox" then
    <[key f := if truthy (field_default f) then field_default f
               else boolean false]> product
  else if type f =? "number" then
    <[key f := match min f with
               | Some m => if truthy (num m) then num m else num 0
               | None => num 0
               end]> product
  else <[key f := str ""]> product.

Definition addEmptyProduct (st : state) : state :=
  let counter := S (productIdCounter st) in
  let product : gmap string value :=
    {[ "id" := str ("manual_" +:+ pretty counter) ]} in
  let product := foldl emptyField product fields in
  {| manualProducts := manualProducts st ++ [product];
     validationErrors := validationErrors st;
     creating := creating st; creationResults := creationResults st;
     createdCount := createdCount st; totalToCreate := totalToCreate st;
     showPasswords := showPasswords st;
     productIdCounter := counter |}.

(** [removeProduct(index)]: [None] when [product.id] throws because no
    product is at [index]. *)
Definition removeProduct (i : nat) (st : state) : option state :=
  match manualProducts st !! i with
  | Some product =>
      Some (set_manualProducts (delete i (manualProducts st))
              (set_validationErrors
                 (delete (id_key product) (validationErrors st)) st))
  | None => None
  end.

(** [resetManualProducts()] assigns every ref but [creating]. *)
Definition resetManualProducts (st : state) : state :=
  {| manualProducts := []; validationErrors := ∅; creating := creating st;
     creationResults := []; createdCount := 0; totalToCreate := 0;
     showPasswords := ∅; productIdCounter := 0 |}.

Definition apiRequest (body : gmap string value) (w : world)
    : api_outcome * world :=
  (server (requests w) body, {| requests := requests w ++ [body] |}).

(** The object pushed to [creationResults]: by the try block when
    the request resolves, by the catch block when it throws. *)
Definition resultOf (i : nat) (product : gmap string value)
    (outcome : api_outcome) : result :=
  match outcome with
  | api_ok =>
      {| index := i; product := product; success := true; error := None |}
  | api_throws message =>
      {| index := i; product := product; success := false;
         error := Some message |}
  end.

(** One turn of the loop of [createAllProducts] for the product at
    index [i]: the inner try and catch, then [createdCount.value++]. *)
Definition createOne (i : nat) (product : gmap string value)
    (st : state) (w : world) : state * world :=
  let '(outcome, w) := apiRequest product w in
  let r := resultOf i product outcome in
  ({| manualProducts := manualProducts st;
      validationErrors := validationErrors st;
      creating := creating st;
      creationResults := creationResults st ++ [r];
      createdCount := S (createdCount st);
      totalToCreate := totalToCreate st;
      showPasswords := showPasswords st;
      productIdCounter := productIdCounter st |}, w).

(** The loop from index [i] on; [ps] is what is left of
    [manualProducts.value] from [i], which the body leaves alone. *)
Fixpoint createLoop (i : nat) (ps : list (gmap string value))
    (st : state) (w : world) : state * world :=
  match ps with
  | [] => (st, w)
  | product :: rest =>
      let '(st, w) := createOne i product st w in
      createLoop (S i) rest st w
  end.

(** The state when the loop is entered. *)
Definition startCreating (st : state) : state :=
  {| manualProducts := manualProducts st;
     validationErrors := validationErrors st;
     creating := true;
     creationResults := [];
     createdCount := 0;
     totalToCreate := length (manualProducts st);
     showPasswords := showPasswords st;
     productIdCounter := productIdCounter st |}.

Definition successCount (st : state) : nat :=
  length (filter (λ r, success r = true) (creationResults st)).

Definition failCount (st : state) : Z :=
  Z.of_nat (totalToCreate st) - Z.of_nat (successCount st).

(** [createAllProducts()]: the messages passed to [alert], the state
    and the world it leaves.  The function is taken as one step: no
    edit of the form happens while it awaits a request. *)
Definition createAllProducts (st : state) (w : world)
    : list string * state * world :=
  let '(valid, st) := validateAll st in
  if negb valid then
    (["Please fix validation errors before creating products"], st, w)
  else
    let '(st, w) := createLoop 0 (manualProducts st) (startCreating st) w in
    if (failCount st =? 0)%Z then
      (["Successfully created " +:+ pretty (successCount st) +:+ " products"],
       set_creating false (resetManualProducts st), w)
    else
      (["Created " +:+ pretty (successCount st) +:+ " products, "
          +:+ pretty (failCount st) +:+ " failed"],
       set_creating false st, w).
End Script.
End BulkForm.

(** ** src/utils/circuitBreaker.js

    Times are the integer milliseconds of [Date.now()]; the threshold and
    the two durations of the options are integers as well. *)

Module CircuitBreaker.
Import JS.

Inductive circuit_state : Type := CLOSED | OPEN | HALF_OPEN.

#[global] Instance circuit_state_eq_dec : EqDecision circuit_state.
Proof. solve_decision. Defined.

Record options : Type := {
  failureThreshold : Z;
  timeout : Z;
  monitorWindow : Z
}.

(** The defaults of the constructor. *)
Definition default_options : options :=
  {| failureThreshold := 5; timeout := 60000; monitorWindow := 10000 |}.

(** The fields of an instance next to [fn] and [options]. *)
Record breaker : Type := {
  state : circuit_state;
  failures : Z;
  lastFailureTime : option Z;
  successes : list Z
}.

(** What the constructor and [reset()] leave. *)
Definition fresh : breaker :=
  {| state := CLOSED; failures := 0; lastFailureTime := None; successes := [] |}.

(** The environment of an instance: how often [Date.now()] has been
    read and how often [fn] has been invoked. *)
Record world : Type := { ticks : nat; calls : nat }.

Definition M (A : Type) : Type := breaker * world -> A * (breaker * world).

#[global] Instance M_ret : MRet M := λ A a s, (a, s).
#[global] Instance M_bind : MBind M := λ A B f m s, f (m s).1 (m s).2.

Definition this : M breaker := λ s, (s.1, s).
Definition assign (f : breaker -> breaker) : M unit := λ s, (tt, (f s.1, s.2)).

Definition set_state (x : circuit_state) (b : breaker) : breaker :=
  {| state := x; failures := failures b;
     lastFailureTime := lastFailureTime b; successes := successes b |}.
Definition set_failures (x : Z) (b : breaker) : breaker :=
  {| state := state b; failures := x;
     lastFailureTime := lastFailureTime b; successes := successes b |}.
Definition set_lastFailureTime (x : option Z) (b : breaker) : breaker :=
  {| state := state b; failures := failures b;
     lastFailureTime := x; successes := successes b |}.
Definition set_successes (x : list Z) (b : breaker) : breaker :=
  {| state := state b; failures := failures b;
     lastFailureTime := lastFailureTime b; successes := x |}.

Section Instance.
Context {R : Type}.
Variable opts : options.
(** [clock k] is what the read number [k] of [Date.now()] returns. *)
Variable clock : nat -> Z.
(** [fn k] is how the invocation number [k] of the wrapped function
    ends: with a result, or throwing an error. *)
Variable fn : nat -> R + error.

Definition Date_now : M Z :=
  λ s, (clock (ticks s.2), (s.1, {| ticks := S (ticks s.2); calls := calls s.2 |})).

Definition call_fn : M (R + error) :=
  λ s, (fn (calls s.2), (s.1, {| ticks := ticks s.2; calls := S (calls s.2) |})).

Definition onSuccess : M unit :=
  assign (set_failures 0);;
  now ← Date_now;
  assign (λ b, set_successes (successes b ++ [now]) b);;
  now ← Date_now;
  let cutoff := (now - monitorWindow opts)%Z in
  assign (λ b, set_successes (filter (λ time, (cutoff < time)%Z) (successes b)) b);;
  b ← this;
  if decide (state b = HALF_OPEN) then assign (set_state CLOSED) else mret tt.

Definition onFailure : M unit :=
  assign (λ b, set_failures (failures b + 1) b);;
  now ← Date_now;
  assign (set_lastFailureTime (Some now));;
  b ← this;
  if decide (failureThreshold opts ≤ failures b)%Z
  then assign (set_state OPEN) else mret tt.

(** [this.lastFailureTime && (Date.now() - this.lastFailureTime) >
    this.options.timeout] as a condition: [null] and [0] are falsy and
    end the conjunction before the clock is read. *)
Definition shouldAttemptReset : M bool :=
  b ← this;
  match lastFailureTime b with
  | None => mret false
  | Some last =>
      if decide (last = 0%Z) then mret false
      else now ← Date_now; mret (bool_decide (timeout opts < now - last)%Z)
  end.

(** The try and catch around [await this.fn(...args)]. *)
Definition attempt : M (R + error) :=
  r ← call_fn;
  match r with
  | inl result => onSuccess;; mret (inl result)
  | inr error => onFailure;; mret (inr error)
  end.

Definition execute : M (R + error) :=
  b ← this;
  if decide (state b = OPEN) then
    retry ← shouldAttemptReset;
    if (retry : bool) then assign (set_state HALF_OPEN);; attempt
    else mret (inr (Error "Circuit breaker is OPEN"))
  else attempt.

Definition reset : M unit :=
  assign (λ _, fresh).

(** [n] calls of [execute] one after the other; the outcomes first to
    last. *)
Fixpoint executeMany (n : nat) : M (list (R + error)) :=
  match n with
  | O => mret []
  | S n' => r ← execute; rs ← executeMany n'; mret (r :: rs)
  end.
End Instance.
End CircuitBreaker.

(** ** src/utils/retry.js

    [maxAttempts] is an integer; the delays are rationals. *)

Module RetryManager.
Import JS.

Record options : Type := {
  maxAttempts : Z;
  baseDelay : Q;
  maxDelay : Q;
  backoffFactor : Q;
  jitter : bool;
  retryCondition : error -> bool
}.

(** Retry on network errors and 5xx server errors. *)
Definition defaultRetryCondition (e : error) : bool :=
  bool_decide (code e = Some "NETWORK_ERROR")
  || bool_decide (statusCode e = Some 408%Z)
  || bool_decide (statusCode e = Some 429%Z)
  || match statusCode e with
     | Some c => bool_decide (500 ≤ c)%Z && bool_decide (c < 600)%Z
     | None => false
     end.

(** The defaults of the constructor. *)
Definition default_options : options :=
  {| maxAttempts := 3; baseDelay := 1000; maxDelay := 30000;
     backoffFactor := 2; jitter := true;
     retryCondition := defaultRetryCondition |}.

(** The environment of one call of [execute]: how often [fn] has been
    invoked, how often [Math.random()] has been read, and the delays
    slept so far, in order. *)
Record world : Type := {
  calls : nat;
  randoms : nat;
  sleeps : list Q
}.

Definition start : world := {| calls := 0; randoms := 0; sleeps := [] |}.

Section Instance.
Context {R : Type}.
Variable opts : options.
(** [fn k] is how the invocation number [k] of [fn] ends. *)
Variable fn : nat -> R + error.
(** [random k] is what the read number [k] of [Math.random()] returns. *)
Variable random : nat -> Q.

Definition call_fn (w : world) : (R + error) * world :=
  (fn (calls w),
   {| calls := S (calls w); randoms := randoms w; sleeps := sleeps w |}).

Definition Math_random (w : world) : Q * world :=
  (random (randoms w),
   {| calls := calls w; randoms := S (randoms w); sleeps := sleeps w |}).

Definition sleep (ms : Q) (w : world) : world :=
  {| calls := calls w; randoms := randoms w; sleeps := sleeps w ++ [ms] |}.

Definition calculateDelay (attempt : Z) (w : world) : Q * world :=
  let delay := (baseDelay opts * Qpower (backoffFactor opts) (attempt - 1))%Q in
  let delay := Qmin delay (maxDelay opts) in
  if jitter opts then
    let '(r, w) := Math_random w in
    ((delay * ((1 # 2) + r * (1 # 2)))%Q, w)
  else (delay, w).

(** The loop of [execute] from [attempt] on.  The outcome is the value
    returned, or the value thrown, which is [null] ([None]) when
    [lastError] never was assigned.  [fuel] bounds the number of turns;
    [None] is returned when it runs out. *)
Fixpoint loop (fuel : nat) (attempt : Z) (lastError : option error)
    (w : world) : option ((R + option error) * world) :=
  match fuel with
  | O => None
  | S fuel' =>
      if decide (attempt ≤ maxAttempts opts)%Z then
        let '(r, w) := call_fn w in
        match r with
        | inl result => Some (inl result, w)
        | inr error =>
            if bool_decide (attempt = maxAttempts opts)
               || negb (retryCondition opts error)
            then Some (inr (Some error), w)
            else
              let '(delay, w) := calculateDelay attempt w in
              let w := sleep delay w in
              loop fuel' (attempt + 1) (Some error) w
        end
      else Some (inr lastError, w)
  end.

(** [execute(fn, ...args)]; the loop takes at most [maxAttempts] turns
    and one more test of its condition. *)
Definition execute (w : world) : option ((R + option error) * world) :=
  loop (S (Z.to_nat (maxAttempts opts))) 1 None w.
End Instance.
End RetryManager.

(** ** Notions used to state the properties *)

Module Rules.
Import JS BulkForm.

Section Coercions.
Variable number_to_string : Q -> string.
Variable string_to_number : string -> option Q.

Definition required_fails (f : field) (value : JS.value) : bool :=
  required f && negb (trimmed_truthy value).

Definition required_message (f : field) : string :=
  remove_first " *" (label f) +:+ " is required".

(** The rules that [validateProduct] has for a field after the
    required check, each with its message, in the order in which it
    evaluates them; [true] marks a rule that fails on [value]. *)
Definition type_rules (f : field) (value : JS.value) : list (bool * string) :=
  if type f =? "text" then
    [ (truthy value && (key f =? "name") && length_lt value 3,
       "Product name must be at least 3 characters");
      (truthy value && (key f =? "code")
         && negb (re_test code_regex (to_string number_to_string value)),
       "Invalid code format (3-50 chars, alphanumeric only)") ]
  else if type f =? "number" then
    if negb (is_nullish value) && negb (is_empty_str value) then
      [ ((key f =? "price") && le_num string_to_number value 0,
         "Price must be greater than 0") ]
      ++ match min f with
         | Some m => [ (lt_num string_to_number value m,
                        "Must be " +:+ number_to_string m +:+ " or greater") ]
         | None => []
         end
    else []
  else if type f =? "email" then
    [ (truthy value
         && negb (re_test email_regex (to_string number_to_string value)),
       "Invalid email format") ]
  else [].

Definition failing (rules : list (bool * string)) : list string :=
  map snd (filter (λ r, r.1 = true) rules).

(** The messages of all failing rules of a field, the required rule
    first. *)
Definition rule_failures (f : field) (value : JS.value) : list string :=
  failing ((required_fails f value, required_message f) :: type_rules f value).

(** The message of the first failing rule, as the specification has
    it. *)
Definition first_failing (f : field) (value : JS.value) : option string :=
  head (rule_failures f value).

(** The message the code keeps: that of the required rule when it
    fails, and otherwise that of the last failing rule. *)
Definition kept_message (f : field) (value : JS.value) : option string :=
  if required_fails f value then Some (required_message f)
  else last (failing (type_rules f value)).

(** The messages one call of the callback of [validateProduct]
    assigns to [errors[key f]], in order. *)
Definition assigned (f : field) (value : JS.value) : list string :=
  if required_fails f value then [required_message f]
  else failing (type_rules f value).
End Coercions.

(** [errors[k] = m] for each [m] of [ms] in turn. *)
Definition assign_all (k : string) (errors : gmap string string)
    (ms : list string) : gmap string string :=
  foldl (λ e m, <[k := m]> e) errors ms.

End Rules.

(** Coercions for examples: exact on the integers and on the strings of
    decimal digits, which is all the examples contain. *)
Module Sample.
Definition number_to_string (q : Q) : string :=
  pretty (Qnum q / Zpos (Qden q))%Z.

Definition digit (c : ascii) : option Z :=
  let n := nat_of_ascii c in
  if (48 <=? n)%nat && (n <=? 57)%nat then Some (Z.of_nat (n - 48)) else None.

Fixpoint digits (acc : Z) (s : string) : option Z :=
  match s with
  | EmptyString => Some acc
  | String c s' =>
      match digit c with
      | Some d => digits (10 * acc + d) s'
      | None => None
      end
  end.

Definition string_to_number (s : string) : option Q :=
  match digits 0 s with
  | Some z => Some (inject_Z z)
  | None => None
  end.

(** A filled-in row of the form, and the same row with a negative
    price. *)
Definition widget : gmap string JS.value :=
  <["name" := JS.str "Widget"]>
    (<["price" := JS.num 5]>
       (<["category" := JS.str "Tools"]>
          ({[ "id" := JS.str "manual_1" ]}))).



(** A row that passes validation but for its blank name. *)
Definition nameless : gmap string JS.value :=
  <["name" := JS.str "  "]> widget.

(** A form with two valid rows. *)
Definition two_widgets : BulkForm.state :=
  BulkForm.set_manualProducts
    [widget; <["id" := JS.str "manual_2"]> widget] BulkForm.initial.

End Sample.

Module BreakerNotions.
Import JS CircuitBreaker.

(** The states a breaker and its environment can be in after some calls
    of [execute] on a new instance. *)
Inductive reachable {R : Type} (opts : options) (clock : nat -> Z)
    (fn : nat -> R + error) : breaker * world -> Prop :=
| reachable_fresh w : reachable opts clock fn (fresh, w)
| reachable_execute s :
    reachable opts clock fn s ->
    reachable opts clock fn (execute opts clock fn s).2.

(** Two breakers that differ in [successes] at most. *)
Definition same_circuit (b1 b2 : breaker) : Prop :=
  state b1 = state b2 ∧ failures b1 = failures b2
  ∧ lastFailureTime b1 = lastFailureTime b2.

Definition with_monitorWindow (x : Z) (opts : options) : options :=
  {| failureThreshold := failureThreshold opts; timeout := timeout opts;
     monitorWindow := x |}.

(** How many of the failures at [times] a window of [monitorWindow]
    ending at [now] holds. *)
Definition failures_in_window (opts : options) (now : Z) (times : list Z) : nat :=
  length (filter (λ t, (now - monitorWindow opts < t)%Z) times).

(** What holds of a breaker between two calls of [execute]. *)
Definition settled (opts : options) (b : breaker) : Prop :=
  (state b = CLOSED ∧ (0 ≤ failures b < failureThreshold opts)%Z)
  ∨ (state b = OPEN ∧ (failureThreshold opts ≤ failures b)%Z
     ∧ is_Some (lastFailureTime b)).
End BreakerNotions.

(** A breaker that opens at the second failure, a clock whose readings
    are a thousand seconds apart, and a function that always throws. *)
Module BreakerSample.
Import JS CircuitBreaker.

Definition two_strikes : options :=
  {| failureThreshold := 2; timeout := 60000; monitorWindow := 10000 |}.

Definition slow_clock (k : nat) : Z := (1000 + 1000000 * Z.of_nat k)%Z.

Definition always_down (k : nat) : unit + error := inr (Error "down").

Definition never_down (k : nat) : unit + error := inl tt.

Definition tripped : breaker :=
  {| state := OPEN; failures := 2; lastFailureTime := Some 1000000%Z;
     successes := [] |}.

Definition w0 : world := {| ticks := 0; calls := 0 |}.
End BreakerSample.

(** Policies for examples: one attempt, two attempts, and a factor below
    one; a function that always throws the same network error. *)
Module RetrySample.
Import JS RetryManager.

Definition policy (attempts : Z) (factor : Q) : options :=
  {| maxAttempts := attempts; baseDelay := 1000; maxDelay := 30000;
     backoffFactor := factor; jitter := false;
     retryCondition := defaultRetryCondition |}.

Definition offline : error :=
  {| message := "Network Error"; code := Some "NETWORK_ERROR";
     statusCode := None |}.

Definition always_offline (k : nat) : unit + error := inr offline.

Definition half (k : nat) : Q := 1 # 2.
End RetrySample.

(** ** More of src/utils/circuitBreaker.js *)

Module BreakerState.
Import JS CircuitBreaker.

(** The object that [getState()] returns. *)
Record snapshot : Type := {
  snap_state : circuit_state;
  snap_failures : Z;
  snap_successes : nat;
  snap_lastFailureTime : option Z
}.

Definition getState : M snapshot :=
  b ← this;
  mret {| snap_state := state b; snap_failures := failures b;
          snap_successes := length (successes b);
          snap_lastFailureTime := lastFailureTime b |}.
End BreakerState.

(** The breaker of [BreakerSample] after two calls that failed. *)
Module BreakerSample2.
Import JS CircuitBreaker.

Definition struck_twice : breaker :=
  {| state := OPEN; failures := 2;
     lastFailureTime := Some (BreakerSample.slow_clock 1); successes := [] |}.

Definition w2 : world := {| ticks := 2; calls := 2 |}.

Definition stuck : breaker :=
  {| state := OPEN; failures := 2; lastFailureTime := Some 0%Z; successes := [] |}.
End BreakerSample2.

(** ** Notions for the retry manager *)

Module RetryNotions.
Import RetryManager.

(** The delay after an attempt before jitter is applied. *)
Definition plain_delay (opts : options) (attempt : Z) : Q :=
  Qmin (baseDelay opts * backoffFactor opts ^ (attempt - 1)) (maxDelay opts).
End RetryNotions.

(** A function that throws the network error twice and then returns. *)
Module RetrySample2.
Import JS RetryManager.

Definition flaky (k : nat) : unit + error :=
  if (k <? 2)%nat then inr RetrySample.offline else inl tt.
End RetrySample2.

(** ** [retryWithBackoff] of src/composables/useErrorHandler.js *)

Module Backoff.
Import JS.

(** The environment of one call: how often [asyncFn] has been invoked and
    the times waited so far, in order. *)
Record world : Type := { calls : nat; waits : list Q }.

Definition start : world := {| calls := 0; waits := [] |}.

Section Call.
Context {R : Type}.
(** [asyncFn k] is how the invocation number [k] of [asyncFn] ends. *)
Variable asyncFn : nat -> R + error.
Variable maxRetries : Z.
Variable delay : Q.

(** The loop from [attempt] on; the outcome is the value returned or the
    value thrown, [None] for [null].  [fuel] bounds the number of turns. *)
Fixpoint loop (fuel : nat) (attempt : Z) (lastError : option error)
    (w : world) : option ((R + option error) * world) :=
  match fuel with
  | O => None
  | S fuel' =>
      if decide (attempt ≤ maxRetries)%Z then
        let w1 := {| calls := S (calls w); waits := waits w |} in
        match asyncFn (calls w) with
        | inl result => Some (inl result, w1)
        | inr err =>
            if bool_decide (attempt = maxRetries)
            then Some (inr (Some err), w1)
            else
              let waitTime := (delay * 2 ^ attempt)%Q in
              loop fuel' (attempt + 1) (Some err)
                {| calls := calls w1; waits := waits w1 ++ [waitTime] |}
        end
      else Some (inr lastError, w)
  end.

(** [retryWithBackoff(asyncFn, maxRetries, delay)]; the loop takes at most
    [maxRetries + 1] turns and one more test of its condition. *)
Definition retryWithBackoff (w : world) : option ((R + option error) * world) :=
  loop (S (S (Z.to_nat maxRetries))) 0 None w.
End Call.

(** The sum of a list of times. *)
Definition total (l : list Q) : Q := foldr Qplus 0%Q l.

(** The waits [delay * 2^i] for [i] from [j], [d] of them. *)
Definition doubling (delay : Q) (j d : nat) : list Q :=
  map (λ i, (delay * 2 ^ Z.of_nat i)%Q) (seq j d).
End Backoff.

(** ** src/utils/errors.js

    The properties [timestamp] and [stack] of an [AppError], which come
    from the clock and from the engine, are left out.  Codes and statuses
    that name a property of [Object.prototype] are outside the model of the
    two tables. *)

Module Errors.
Import JS.

Section Payload.
(** What a response carries in [data.errors]. *)
Context {payload : Type}.

Inductive details : Type :=
| details_null
| details_errors (p : payload)
| details_network (originalError : option string)
| details_original (originalError : option string).

Record AppError : Type := {
  name : string;
  message : string;
  code : string;
  statusCode : Z;
  error_details : details;
  userMessage : string
}.

(** [messages[this.code] || messages.UNKNOWN] *)
Definition generateUserMessage (code : string) : string :=
  if code =? "NETWORK_ERROR"
  then "Network connection error. Please check your internet connection."
  else if code =? "VALIDATION_ERROR" then "Please check your input and try again."
  else if code =? "AUTH_ERROR" then "Authentication failed. Please log in again."
  else if code =? "PERMISSION_ERROR"
  then "You don't have permission to perform this action."
  else if code =? "NOT_FOUND" then "The requested resource was not found."
  else if code =? "SERVER_ERROR" then "Server error occurred. Please try again later."
  else if code =? "TIMEOUT_ERROR" then "Request timed out. Please try again."
  else "An unexpected error occurred.".

(** [new AppError(message, code, statusCode, details)]; an argument that
    is [undefined] takes its default. *)
Definition new_AppError (message : option string) (code : option string)
    (statusCode : option Z) (d : option details) : AppError :=
  let code := match code with Some c => c | None => "UNKNOWN" end in
  {| name := "AppError";
     message := match message with Some m => m | None => "" end;
     code := code;
     statusCode := match statusCode with Some s => s | None => 500%Z end;
     error_details := match d with Some d => d | None => details_null end;
     userMessage := generateUserMessage code |}.

Definition createError := new_AppError.

(** [a || b] on two strings that may be [undefined]. *)
Definition or_else (a b : option string) : option string :=
  match a with
  | Some s => if s =? "" then b else a
  | None => b
  end.

(** [new NetworkError(originalError)] *)
Definition new_NetworkError (originalMessage : option string) : AppError :=
  {| name := "NetworkError";
     message := match or_else originalMessage (Some "Network error occurred") with
                | Some m => m
                | None => ""
                end;
     code := "NETWORK_ERROR";
     statusCode := 0;
     error_details := details_network originalMessage;
     userMessage := generateUserMessage "NETWORK_ERROR" |}.

(** [codes[status] || 'UNKNOWN'] *)
Definition getErrorCodeFromStatus (status : Z) : string :=
  if decide (status = 400%Z) then "VALIDATION_ERROR"
  else if decide (status = 401%Z) then "AUTH_ERROR"
  else if decide (status = 403%Z) then "PERMISSION_ERROR"
  else if decide (status = 404%Z) then "NOT_FOUND"
  else if decide (status = 408%Z) then "TIMEOUT_ERROR"
  else if decide (status = 429%Z) then "RATE_LIMIT_ERROR"
  else if decide (status = 500%Z) then "SERVER_ERROR"
  else if decide (status = 502%Z) then "SERVER_ERROR"
  else if decide (status = 503%Z) then "SERVER_ERROR"
  else if decide (status = 504%Z) then "SERVER_ERROR"
  else "UNKNOWN".

(** The body of a response, [data.message] and [data.errors]; [None] for
    [data.errors] is any falsy value. *)
Record response_data : Type := {
  data_message : option string;
  data_errors : option payload
}.

(** [error.response]; [data] is [None] when it is [null] or
    [undefined]. *)
Record response : Type := {
  status : Z;
  data : option response_data
}.

(** An error object that is no [AppError], with what [handleError] reads
    of it; [raw_request] is whether [error.request] is truthy. *)
Record raw_error : Type := {
  raw_message : option string;
  raw_code : option string;
  raw_response : option response;
  raw_request : bool
}.

Inductive thrown : Type :=
| thrown_app (e : AppError)
| thrown_raw (e : raw_error).

(** [hay.includes(needle)] *)
Fixpoint includes (needle hay : string) : bool :=
  String.prefix needle hay
  || match hay with
     | EmptyString => false
     | String _ hay' => includes needle hay'
     end.

(** [handleError(error)]; [None] when it throws a TypeError itself, on
    reading [data.message] of a body that is [null] or on calling
    [includes] of a message that is [undefined]. *)
Definition handleError (error : thrown) : option AppError :=
  match error with
  | thrown_app e => Some e
  | thrown_raw e =>
      match raw_response e with
      | Some r =>
          match data r with
          | Some d =>
              Some (new_AppError (or_else (data_message d) (raw_message e))
                      (Some (getErrorCodeFromStatus (status r)))
                      (Some (status r))
                      (Some match data_errors d with
                            | Some p => details_errors p
                            | None => details_null
                            end))
          | None => None
          end
      | None =>
          if raw_request e then Some (new_NetworkError (raw_message e))
          else if bool_decide (raw_code e = Some "ECONNABORTED")
          then Some (new_AppError (Some "Request timeout") (Some "TIMEOUT_ERROR")
                       (Some 408%Z) None)
          else
            match raw_message e with
            | None => None
            | Some m =>
                if includes "timeout" m
                then Some (new_AppError (Some "Request timeout")
                             (Some "TIMEOUT_ERROR") (Some 408%Z) None)
                else Some (new_AppError
                             (or_else (raw_message e) (Some "Unknown error occurred"))
                             (Some "UNKNOWN") (Some 500%Z)
                             (Some (details_original (raw_message e))))
            end
      end
  end.

(** What [defaultRetryCondition] of the retry manager reads of an
    [AppError]. *)
Definition as_error (e : AppError) : error :=
  {| JS.message := message e; JS.code := Some (code e);
     JS.statusCode := Some (statusCode e) |}.
End Payload.
End Errors.

(** A response without a body, and an error of user code. *)
Module ErrorsSample.
Import Errors.

Definition rate_limited : @raw_error unit :=
  {| raw_message := Some "Request failed with status code 429";
     raw_code := Some "ERR_BAD_REQUEST";
     raw_response := Some {| status := 429;
                             data := Some {| data_message := None;
                                             data_errors := None |} |};
     raw_request := true |}.

Definition type_error : @raw_error unit :=
  {| raw_message := Some "x is not a function"; raw_code := None;
     raw_response := None; raw_request := false |}.

End ErrorsSample.

(** ** The error log of src/utils/globalErrorHandler.js

    A log entry (its id, time, error and context) is taken as given;
    [stringify] and [parse] are [JSON.stringify] and [JSON.parse] on logs,
    [None] when [parse] throws, and [accepts] tells whether
    [localStorage.setItem] takes a value or throws. *)

Module ErrorLog.

Section Log.
Context {entry : Type}.
Variable stringify : list entry -> string.
Variable parse : string -> option (list entry).
Variable accepts : string -> bool.

(** The fields [errorLog] and [maxLogSize] of the handler. *)
Record handler : Type := {
  errorLog : list entry;
  maxLogSize : nat
}.

(** What the constructor leaves. *)
Definition new : handler := {| errorLog := []; maxLogSize := 100 |}.

(** [storeErrorLog()]; when [setItem] throws, the catch only warns. *)
Definition storeErrorLog (h : handler) (localStorage : gmap string string)
    : gmap string string :=
  let value := stringify (take 50 (errorLog h)) in
  if accepts value then <["app_error_log" := value]> localStorage
  else localStorage.

(** [loadErrorLog()] *)
Definition loadErrorLog (localStorage : gmap string string) : list entry :=
  match localStorage !! "app_error_log" with
  | Some stored =>
      if stored =? "" then []
      else match parse stored with
           | Some log => log
           | None => []
           end
  | None => []
  end.

(** [logError(error, context)], from the entry it builds on. *)
Definition logError (logEntry : entry) (h : handler)
    (localStorage : gmap string string) : handler * gmap string string :=
  let log := logEntry :: errorLog h in
  let log := if (maxLogSize h <? length log)%nat
             then take (maxLogSize h) log else log in
  let h := {| errorLog := log; maxLogSize := maxLogSize h |} in
  (h, storeErrorLog h localStorage).

Definition clearErrorLog (h : handler) (localStorage : gmap string string)
    : handler * gmap string string :=
  ({| errorLog := []; maxLogSize := maxLogSize h |},
   delete "app_error_log" localStorage).

Definition getErrorLog (h : handler) : list entry := errorLog h.

(** [logError] for each entry of a list in turn. *)
Definition logAll (entries : list entry) (h : handler)
    (localStorage : gmap string string) : handler * gmap string string :=
  foldl (λ s e, logError e s.1 s.2) (h, localStorage) entries.
End Log.
End ErrorLog.

(** A log whose entries carry nothing, written as one mark per entry
    between brackets, for examples. *)
Module ErrorLogSample.

Fixpoint marks (log : list unit) : string :=
  match log with
  | [] => "]"
  | _ :: log' => String "x" (marks log')
  end.

Definition stringify (log : list unit) : string := String "[" (marks log).

Definition parse (s : string) : option (list unit) :=
  match s with
  | String "[" rest => Some (replicate (String.length rest - 1) tt)
  | _ => None
  end.

Definition accepts_all (value : string) : bool := true.
End ErrorLogSample.

(** ** The URLs of src/services/baseService.js *)

Module Service.

(** [buildUrl(path = '')]; [path] is [None] when the argument is
    [undefined]. *)
Definition buildUrl (endpoint : string) (path : option string) : string :=
  let path := match path with Some p => p | None => "" end in
  if String.prefix "/" path then path
  else endpoint +:+ (if path =? "" then "" else "/") +:+ path.

(** The part of a request configuration that the URL depends on. *)
Record config : Type := {
  method : string;
  url : option string
}.

(** The configurations that the CRUD operations pass to [request]; [id]
    is the text that the template string gives for the id. *)
Definition getAll : config := {| method := "GET"; url := None |}.
Definition getById (id : string) : config :=
  {| method := "GET"; url := Some ("/" +:+ id) |}.
Definition create : config := {| method := "POST"; url := None |}.
Definition update (id : string) : config :=
  {| method := "PUT"; url := Some ("/" +:+ id) |}.
Definition patch (id : string) : config :=
  {| method := "PATCH"; url := Some ("/" +:+ id) |}.
Definition delete (id : string) : config :=
  {| method := "DELETE"; url := Some ("/" +:+ id) |}.

(** The [url] of the configuration that [request] passes to [api]. *)
Definition requestUrl (endpoint : string) (c : config) : string :=
  buildUrl endpoint (url c).
End Service.

(** ** More of the bulk product form *)

Module FormUI.
Import JS BulkForm.

(** [togglePasswordVisibility(productId)]: [!showPasswords.value[id]] of
    an id without entry is [true]. *)
Definition togglePasswordVisibility (productId : string) (st : state) : state :=
  {| manualProducts := manualProducts st;
     validationErrors := validationErrors st;
     creating := creating st; creationResults := creationResults st;
     createdCount := createdCount st; totalToCreate := totalToCreate st;
     showPasswords :=
       <[productId := negb (match showPasswords st !! productId with
                            | Some b => b
                            | None => false
                            end)]> (showPasswords st);
     productIdCounter := productIdCounter st |}.

(** [showPasswords?.[product.id]] taken as a condition, as the template
    does. *)
Definition passwordShown (productId : string) (st : state) : bool :=
  match showPasswords st !! productId with
  | Some b => b
  | None => false
  end.


Section Reachable.
Variable number_to_string : Q -> string.
Variable string_to_number : string -> option Q.
Variable fields : list field.
Variable server : list (gmap string value) -> gmap string value -> api_outcome.

(** The states of the form that its buttons, its inputs and its rendering
    lead to from the state of a new component: "Add Product", the remove
    button of a row, an input of a field of a row, "Validate All", the
    query of a field error of a row, and "Create All Products". *)
Inductive reachable : state -> Prop :=
| reach_initial : reachable initial
| reach_add st :
    reachable st -> reachable (addEmptyProduct fields st)
| reach_remove st i st' :
    reachable st -> removeProduct number_to_string i st = Some st' ->
    reachable st'
| reach_edit st i f v :
    reachable st -> f ∈ fields -> reachable (editField i (key f) v st)
| reach_validate st :
    reachable st ->
    reachable (validateAll number_to_string string_to_number fields st).2
| reach_query st i product k :
    reachable st -> manualProducts st !! i = Some product ->
    reachable (getFieldError number_to_string string_to_number fields
                 product k st).2
| reach_create st w :
    reachable st ->
    reachable (createAllProducts number_to_string string_to_number fields
                 server st w).1.2
| reach_toggle st productId :
    reachable st -> reachable (togglePasswordVisibility productId st).

(** An id that [addEmptyProduct] has handed out since the counter was
    last 0. *)
Definition issued (counter : nat) (id : string) : Prop :=
  ∃ k : nat, (1 ≤ k ≤ counter)%nat ∧ id = "manual_" +:+ pretty k.

(** The row has an id, the ids of the rows are distinct, and only ids
    handed out are in use, by rows or by stored errors. *)
Definition ids_in_order (st : state) : Prop :=
  NoDup (map (id_key number_to_string) (manualProducts st))
  ∧ Forall (λ p, ∃ id, p !! "id" = Some (str id)
                       ∧ issued (productIdCounter st) id)
           (manualProducts st)
  ∧ (∀ id, is_Some (validationErrors st !! id) →
           issued (productIdCounter st) id).
End Reachable.
End FormUI.

(** A form with one new row, the field [name] of the form and a server
    that accepts every request, for examples. *)
Module FormSample.
Import JS BulkForm.

Definition name_field : field :=
  {| key := "name"; label := "Name *"; type := "text";
     required := true; min := None; field_default := undefined |}.

Definition one_new_row : state := addEmptyProduct formFields initial.

Definition always_ok (earlier : list (gmap string value))
    (body : gmap string value) : api_outcome := api_ok.

Definition nothing_posted : world := {| requests := [] |}.
End FormSample.

(** ** The retries of the error boundary component

    The state that the retries depend on: [hasError], [retryCount],
    [autoRetryCountdown] and whether the interval [autoRetryTimer] is set.
    The refs [error] and [errorInfo] are set with [hasError] and cleared
    with it. *)

Module ErrorBoundary.

Record props : Type := {
  enableAutoRetry : bool;
  autoRetryDelay : Z;
  maxRetries : Z
}.

(** The defaults of the props. *)
Definition default_props : props :=
  {| enableAutoRetry := false; autoRetryDelay := 10; maxRetries := 3 |}.

Record state : Type := {
  hasError : bool;
  retryCount : Z;
  autoRetryCountdown : Z;
  autoRetryTimer : bool
}.

Definition initial : state :=
  {| hasError := false; retryCount := 0; autoRetryCountdown := 0;
     autoRetryTimer := false |}.

(** What the component emits. *)
Inductive emitted : Type :=
| emit_error
| emit_retry (count : Z).

Definition clearAutoRetry (st : state) : state :=
  {| hasError := hasError st; retryCount := retryCount st;
     autoRetryCountdown := 0; autoRetryTimer := false |}.

Definition retry (st : state) : state * list emitted :=
  let st := clearAutoRetry st in
  ({| hasError := false; retryCount := retryCount st + 1;
      autoRetryCountdown := autoRetryCountdown st;
      autoRetryTimer := autoRetryTimer st |},
   [emit_retry (retryCount st + 1)]).

Definition startAutoRetry (p : props) (st : state) : state :=
  let st := clearAutoRetry st in
  {| hasError := hasError st; retryCount := retryCount st;
     autoRetryCountdown := autoRetryDelay p; autoRetryTimer := true |}.

Definition handleError (p : props) (st : state) : state * list emitted :=
  let st := {| hasError := true; retryCount := retryCount st;
               autoRetryCountdown := autoRetryCountdown st;
               autoRetryTimer := autoRetryTimer st |} in
  (if enableAutoRetry p && bool_decide (retryCount st < maxRetries p)%Z
   then startAutoRetry p st else st,
   [emit_error]).

(** The callback of the interval, which runs once a second while the
    interval is set. *)
Definition tick (st : state) : state * list emitted :=
  if autoRetryTimer st then
    let st := {| hasError := hasError st; retryCount := retryCount st;
                 autoRetryCountdown := autoRetryCountdown st - 1;
                 autoRetryTimer := autoRetryTimer st |} in
    if bool_decide (autoRetryCountdown st ≤ 0)%Z
    then retry (clearAutoRetry st)
    else (st, [])
  else (st, []).

(** What happens to the component: it catches an error, a second
    passes, the retry button is clicked, it is unmounted. *)
Inductive event : Type :=
| caught
| second
| retry_clicked
| unmounted.

Definition step (p : props) (ev : event) (st : state) : state * list emitted :=
  match ev with
  | caught => handleError p st
  | second => tick st
  | retry_clicked => retry st
  | unmounted => (clearAutoRetry st, [])
  end.

(** The state after the events [evs]. *)
Definition after (p : props) (evs : list event) (st : state) : state :=
  foldl (λ st ev, (step p ev st).1) st evs.

(** How many retries the interval starts during the events [evs]. *)
Fixpoint autoRetries (p : props) (evs : list event) (st : state) : nat :=
  match evs with
  | [] => 0
  | ev :: evs' =>
      (match ev with
       | second => length (step p ev st).2
       | _ => 0
       end + autoRetries p evs' (step p ev st).1)%nat
  end.
End ErrorBoundary.

(** * Properties *)

Local Open Scope list_scope.

(** ** The helpers on strings *)

Example trim_example : JS.trim "  a b  " = "a b".
Proof. reflexivity. Qed.

Example remove_first_example :
  JS.remove_first " *" "Name *" = "Name"
  ∧ JS.remove_first " *" "A * B *" = "A B *"
  ∧ JS.remove_first " *" "Code" = "Code".
Proof. repeat split. Qed.

Example code_regex_examples :
  JS.re_test JS.code_regex "AB-_9" = true
  ∧ JS.re_test JS.code_regex "ab" = false
  ∧ JS.re_test JS.code_regex "a b c" = false
  ∧ JS.re_test JS.code_regex
      "123456789012345678901234567890123456789012345678901" = false.
Proof. repeat split. Qed.

Example email_regex_examples :
  JS.re_test JS.email_regex "a@b.c" = true
  ∧ JS.re_test JS.email_regex "a@b.c.d" = true
  ∧ JS.re_test JS.email_regex "a@b." = false
  ∧ JS.re_test JS.email_regex "a@@b.c" = false
  ∧ JS.re_test JS.email_regex "a @b.c" = false.
Proof. repeat split. Qed.

(** ** Validation of one record *)

Section ValidationFacts.
Import JS BulkForm Rules.
Variable number_to_string : Q -> string.
Variable string_to_number : string -> option Q.

#[local] Abbreviation validateField := (validateField number_to_string string_to_number).
#[local] Abbreviation validateProduct := (validateProduct number_to_string string_to_number).
#[local] Abbreviation type_rules := (type_rules number_to_string string_to_number).
#[local] Abbreviation kept_message := (kept_message number_to_string string_to_number).
#[local] Abbreviation assigned := (assigned number_to_string string_to_number).

Lemma validateField_assigned product errors f :
  validateField product errors f
  = assign_all (key f) errors (assigned f (get product (key f))).
Proof.
  unfold BulkForm.validateField, Rules.assigned, required_fails, Rules.type_rules, failing, assign_all.
  destruct (required f && negb (trimmed_truthy (get product (key f)))); [reflexivity|].
  destruct (type f =? "text").
  { destruct (truthy _ && (key f =? "name") && _);
      destruct (truthy _ && (key f =? "code") && _); reflexivity. }
  destruct (type f =? "number").
  { destruct (negb _ && negb _); [|reflexivity].
    destruct ((key f =? "price") && _); destruct (min f) as [m|];
      try destruct (lt_num _ _ m); reflexivity. }
  destruct (type f =? "email"); cbn [andb]; [|reflexivity].
  destruct (truthy _ && _); reflexivity.
Qed.

Lemma assign_all_lookup k errors ms k' :
  assign_all k errors ms !! k'
  = if decide (k = k') then from_option Some (errors !! k') (last ms)
    else errors !! k'.
Proof.
  unfold assign_all. revert errors.
  induction ms as [|m ms IH]; intros errors; cbn [foldl].
  - destruct (decide _); reflexivity.
  - rewrite IH, last_cons. destruct (decide (k = k')) as [->|Hne].
    + rewrite lookup_insert_eq. destruct (last ms); reflexivity.
    + rewrite lookup_insert_ne by assumption. reflexivity.
Qed.

Lemma assigned_last f value :
  last (assigned f value) = kept_message f value.
Proof.
  unfold Rules.assigned, Rules.kept_message.
  destruct (required_fails f value); reflexivity.
Qed.

Lemma validateField_lookup product errors f k :
  validateField product errors f !! k
  = if decide (key f = k)
    then from_option Some (errors !! k) (kept_message f (get product (key f)))
    else errors !! k.
Proof.
  rewrite validateField_assigned, assign_all_lookup, assigned_last. reflexivity.
Qed.

Lemma foldl_validateField_other product fields errors k :
  k ∉ map key fields →
  foldl (validateField product) errors fields !! k = errors !! k.
Proof.
  revert errors. induction fields as [|f fields IH]; intros errors Hk; [reflexivity|].
  cbn [map] in Hk. apply not_elem_of_cons in Hk as [Hne Hk].
  cbn [foldl]. rewrite IH by assumption.
  rewrite validateField_lookup, decide_False by congruence. reflexivity.
Qed.

Lemma foldl_validateField_nodup product fields errors f :
  NoDup (map key fields) → f ∈ fields →
  foldl (validateField product) errors fields !! key f
  = from_option Some (errors !! key f) (kept_message f (get product (key f))).
Proof.
  revert errors. induction fields as [|g fields IH]; intros errors Hnd Hin.
  - set_solver.
  - cbn [map] in Hnd. apply NoDup_cons in Hnd as [Hg Hnd]. cbn [foldl].
    apply elem_of_cons in Hin as [->|Hin].
    + rewrite foldl_validateField_other by assumption.
      rewrite validateField_lookup, decide_True by reflexivity. reflexivity.
    + rewrite IH by assumption.
      rewrite validateField_lookup, decide_False; [reflexivity|].
      intros Heq. apply Hg. rewrite Heq. apply list_elem_of_fmap. eauto.
Qed.

Lemma validateProduct_lookup fields product f :
  NoDup (map key fields) → f ∈ fields →
  validateProduct fields product !! key f = kept_message f (get product (key f)).
Proof.
  intros Hnd Hin. unfold BulkForm.validateProduct.
  rewrite foldl_validateField_nodup by assumption.
  rewrite lookup_empty. destruct (kept_message _ _); reflexivity.
Qed.


Lemma kept_message_first f value :
  (length (failing (type_rules f value)) ≤ 1)%nat →
  kept_message f value = first_failing number_to_string string_to_number f value.
Proof.
  unfold Rules.kept_message, first_failing, rule_failures, failing.
  cbn [filter map]. rewrite filter_cons. cbn [fst snd].
  destruct (required_fails f value); cbn.
  - destruct (decide (true = true)); [reflexivity|congruence].
  - destruct (decide (false = true)); [congruence|].
    destruct (map snd (filter _ (type_rules f value))) as [|m [|m' ms]]; cbn;
      intros; try reflexivity; lia.
Qed.

End ValidationFacts.

Lemma formFields_NoDup : NoDup (map BulkForm.key BulkForm.formFields).
Proof. exact (bool_decide_unpack (NoDup (map BulkForm.key BulkForm.formFields)) I). Defined.



Section FormFacts.
Import JS BulkForm Rules.
Variable number_to_string : Q -> string.
Variable string_to_number : string -> option Q.
Variable fields : list field.
Variable server : list (gmap string value) -> gmap string value -> api_outcome.

#[local] Abbreviation validateProduct := (validateProduct number_to_string string_to_number fields).
#[local] Abbreviation collectErrors := (collectErrors number_to_string string_to_number fields).
#[local] Abbreviation validateAll := (validateAll number_to_string string_to_number fields).
#[local] Abbreviation createLoop := (createLoop server).
#[local] Abbreviation createAllProducts :=
  (createAllProducts number_to_string string_to_number fields server).

Lemma has_keys_false {A} (o : gmap string A) : has_keys o = false ↔ o = ∅.
Proof.
  unfold has_keys. rewrite Nat.ltb_ge, <- map_size_empty_iff. lia.
Qed.

Lemma collectErrors_step_empty (acc : gmap string (gmap string string)) ps :
  foldl (λ acc product,
           let errors := validateProduct product in
           if has_keys errors
           then <[id_key number_to_string product := errors]> acc else acc)
        acc ps = ∅
  ↔ acc = ∅ ∧ Forall (λ p, validateProduct p = ∅) ps.
Proof.
  revert acc. induction ps as [|p ps IH]; intros acc; cbn [foldl].
  - split; [intros ->; split; [reflexivity|constructor] | intros [-> _]; reflexivity].
  - rewrite IH, Forall_cons.
    destruct (has_keys (validateProduct p)) eqn:Hk.
    + split.
      * intros [Hne _]. exfalso. exact (insert_non_empty _ _ _ Hne).
      * intros [_ [Hp _]]. apply has_keys_false in Hp. congruence.
    + apply has_keys_false in Hk. tauto.
Qed.

Lemma validateAll_true st :
  (validateAll st).1 = true
  ↔ Forall (λ p, validateProduct p = ∅) (manualProducts st).
Proof.
  unfold BulkForm.validateAll. cbn [fst].
  rewrite Nat.eqb_eq, map_size_empty_iff.
  unfold BulkForm.collectErrors. rewrite collectErrors_step_empty. tauto.
Qed.

Lemma validateAll_products st :
  manualProducts (validateAll st).2 = manualProducts st.
Proof. reflexivity. Qed.

(** What the loop leaves, turn by turn. *)
Lemma createLoop_spec ps i st w :
  ∃ rs : list result,
    creationResults (createLoop i ps st w).1 = creationResults st ++ rs
    ∧ length rs = length ps
    ∧ (∀ j p, ps !! j = Some p →
         rs !! j = Some (resultOf (i + j) p (server (requests w ++ take j ps) p)))
    ∧ requests (createLoop i ps st w).2 = requests w ++ ps
    ∧ createdCount (createLoop i ps st w).1 = (createdCount st + length ps)%nat
    ∧ totalToCreate (createLoop i ps st w).1 = totalToCreate st
    ∧ manualProducts (createLoop i ps st w).1 = manualProducts st
    ∧ validationErrors (createLoop i ps st w).1 = validationErrors st.
Proof.
  revert i st w. induction ps as [|p ps IH]; intros i st w.
  - exists []. cbn. rewrite !app_nil_r. repeat split; try lia.
    intros j q Hj. discriminate.
  - cbn [BulkForm.createLoop]. unfold createOne, apiRequest. cbn [fst snd].
    destruct (IH (S i)
      {| manualProducts := manualProducts st;
         validationErrors := validationErrors st;
         creating := creating st;
         creationResults :=
           creationResults st ++ [resultOf i p (server (requests w) p)];
         createdCount := S (createdCount st);
         totalToCreate := totalToCreate st;
         showPasswords := showPasswords st;
         productIdCounter := productIdCounter st |}
      {| requests := requests w ++ [p] |})
      as (rs & Hrs & Hlen & Hnth & Hreq & Hcnt & Htot & Hps & Hve).
    exists (resultOf i p (server (requests w) p) :: rs).
    cbn [creationResults requests createdCount totalToCreate manualProducts validationErrors] in *.
    rewrite Hrs, Hreq, Hcnt, Htot, Hps, Hve, <- !app_assoc. cbn [app length].
    repeat split; try lia; try reflexivity.
    intros [|j] q Hj.
    + injection Hj as <-. cbn [take]. rewrite app_nil_r, Nat.add_0_r. reflexivity.
    + specialize (Hnth j q Hj). rewrite <- app_assoc in Hnth.
      rewrite Nat.add_succ_r. exact Hnth.
Qed.

Lemma validateAll_idempotent st :
  validateAll (validateAll st).2 = validateAll st.
Proof. reflexivity. Qed.


Lemma createAllProducts_valid st w :
  (validateAll st).1 = true →
  createAllProducts st w
  = let run := createLoop 0 (manualProducts st) (startCreating (validateAll st).2) w in
    if (failCount run.1 =? 0)%Z then
      (["Successfully created " +:+ pretty (successCount run.1) +:+ " products"],
       set_creating false (resetManualProducts run.1), run.2)
    else
      (["Created " +:+ pretty (successCount run.1) +:+ " products, "
          +:+ pretty (failCount run.1) +:+ " failed"],
       set_creating false run.1, run.2).
Proof.
  intros Hvalid. unfold BulkForm.createAllProducts.
  destruct (validateAll st) as [valid st'] eqn:Hva.
  cbn [fst snd] in *. subst valid. cbn [negb].
  replace (manualProducts st') with (manualProducts st)
    by (rewrite <- (validateAll_products st), Hva; reflexivity).
  destruct (createLoop 0 (manualProducts st) (startCreating st') w) as [st'' w''].
  reflexivity.
Qed.

Lemma createAllProducts_invalid st w :
  (validateAll st).1 = false →
  createAllProducts st w
  = (["Please fix validation errors before creating products"],
     (validateAll st).2, w).
Proof.
  intros Hvalid. unfold BulkForm.createAllProducts.
  destruct (validateAll st) as [valid st'] eqn:Hva.
  cbn [fst snd] in *. subst valid. reflexivity.
Qed.



End FormFacts.



(** C10: [getFieldError] answers from the entry it stored for the row.
    A new row has a blank name and the query stores "Name is required";
    after the name is set to "Widget" the record has no error for the
    name, and the same query still returns the stored message. *)
Theorem getFieldError_returns_stale_error :
  let n2s := Sample.number_to_string in
  let s2n := Sample.string_to_number in
  let st0 := BulkForm.addEmptyProduct BulkForm.formFields BulkForm.initial in
  ∃ row0 row1,
    BulkForm.manualProducts st0 = [row0]
    ∧ BulkForm.get row0 "name" = JS.str ""
    ∧ let q0 := BulkForm.getFieldError n2s s2n BulkForm.formFields row0 "name" st0 in
      q0.1 = Some "Name is required"
      ∧ let st1 := BulkForm.editField 0 "name" (JS.str "Widget") q0.2 in
        BulkForm.manualProducts st1 = [row1]
        ∧ BulkForm.get row1 "name" = JS.str "Widget"
        ∧ BulkForm.validateProduct n2s s2n BulkForm.formFields row1 !! "name" = None
        ∧ (BulkForm.getFieldError n2s s2n BulkForm.formFields row1 "name" st1).1
          = Some "Name is required".
Proof.
  eexists _, _. cbv zeta.
  split; [vm_compute; reflexivity|].
  split; [vm_compute; reflexivity|].
  split; [vm_compute; reflexivity|].
  split; [vm_compute; reflexivity|].
  repeat split; vm_compute; reflexivity.
Qed.

(** ** The circuit breaker *)

Ltac run_breaker :=
  unfold CircuitBreaker.execute, CircuitBreaker.attempt,
    CircuitBreaker.shouldAttemptReset, CircuitBreaker.onSuccess,
    CircuitBreaker.onFailure, CircuitBreaker.call_fn, CircuitBreaker.Date_now,
    CircuitBreaker.assign, CircuitBreaker.this,
    mbind, CircuitBreaker.M_bind, mret, CircuitBreaker.M_ret;
  cbn [fst snd CircuitBreaker.state CircuitBreaker.failures
       CircuitBreaker.lastFailureTime CircuitBreaker.successes
       CircuitBreaker.ticks CircuitBreaker.calls
       CircuitBreaker.set_state CircuitBreaker.set_failures
       CircuitBreaker.set_lastFailureTime CircuitBreaker.set_successes].

Section BreakerFacts.
Import JS CircuitBreaker BreakerNotions.
Context {R : Type}.
Variable opts : options.
Variable clock : nat -> Z.
Variable fn : nat -> R + error.

#[local] Abbreviation execute := (execute opts clock fn).
#[local] Abbreviation attempt := (attempt opts clock fn).

Lemma attempt_success b w r :
  fn (calls w) = inl r →
  attempt (b, w)
  = (inl r,
     ({| state := if decide (state b = HALF_OPEN) then CLOSED else state b;
         failures := 0;
         lastFailureTime := lastFailureTime b;
         successes :=
           filter (λ time, (clock (S (ticks w)) - monitorWindow opts < time)%Z)
                  (successes b ++ [clock (ticks w)]) |},
      {| ticks := S (S (ticks w)); calls := S (calls w) |})).
Proof.
  intros Hfn. run_breaker. rewrite Hfn. run_breaker.
  destruct (decide (state b = HALF_OPEN)); reflexivity.
Qed.

Lemma attempt_failure b w e :
  fn (calls w) = inr e →
  attempt (b, w)
  = (inr e,
     ({| state := if decide (failureThreshold opts ≤ failures b + 1)%Z
                  then OPEN else state b;
         failures := failures b + 1;
         lastFailureTime := Some (clock (ticks w));
         successes := successes b |},
      {| ticks := S (ticks w); calls := S (calls w) |})).
Proof.
  intros Hfn. run_breaker. rewrite Hfn. run_breaker.
  destruct (decide (failureThreshold opts ≤ failures b + 1)%Z); reflexivity.
Qed.

Lemma execute_not_open b w :
  state b ≠ OPEN → execute (b, w) = attempt (b, w).
Proof.
  intros Hst. unfold CircuitBreaker.execute, this, mbind, M_bind. cbn [fst snd].
  rewrite decide_False by exact Hst. reflexivity.
Qed.

Lemma execute_open_fast_fail b w last :
  state b = OPEN → lastFailureTime b = Some last →
  (clock (ticks w) - last ≤ timeout opts)%Z →
  ∃ w', execute (b, w) = (inr (Error "Circuit breaker is OPEN"), (b, w'))
        ∧ calls w' = calls w.
Proof.
  intros Hst Hlast Hnot. run_breaker.
  rewrite decide_True by exact Hst. run_breaker. rewrite Hlast.
  destruct (decide (last = 0%Z)) as [Hz|Hz]; run_breaker.
  - exists w. destruct w; split; reflexivity.
  - rewrite bool_decide_eq_false_2 by lia.
    eexists. split; reflexivity.
Qed.

Lemma execute_open_trial b w last :
  state b = OPEN → lastFailureTime b = Some last → last ≠ 0%Z →
  (timeout opts < clock (ticks w) - last)%Z →
  execute (b, w)
  = attempt (set_state HALF_OPEN b,
             {| ticks := S (ticks w); calls := calls w |}).
Proof.
  intros Hst Hlast Hz Hel.
  unfold CircuitBreaker.execute, shouldAttemptReset, Date_now, assign, this,
    mbind, M_bind, mret, M_ret.
  cbn [fst snd]. rewrite decide_True by exact Hst. cbn [fst snd].
  rewrite Hlast, decide_False by exact Hz. cbn [fst snd ticks calls].
  rewrite bool_decide_eq_true_2 by lia. reflexivity.
Qed.

Lemma execute_open_cases b w :
  state b = OPEN →
  (∃ w', execute (b, w) = (inr (Error "Circuit breaker is OPEN"), (b, w'))
         ∧ calls w' = calls w)
  ∨ (∃ last, lastFailureTime b = Some last
             ∧ (timeout opts < clock (ticks w) - last)%Z
             ∧ execute (b, w)
               = attempt (set_state HALF_OPEN b,
                          {| ticks := S (ticks w); calls := calls w |})).
Proof.
  intros Hst. destruct (lastFailureTime b) as [last|] eqn:Hlast.
  - destruct (decide (last = 0%Z)) as [Hz|Hz].
    + left. exists w. split; [|reflexivity].
      run_breaker. rewrite decide_True by exact Hst. run_breaker.
      rewrite Hlast, decide_True by exact Hz. destruct w; reflexivity.
    + destruct (decide (timeout opts < clock (ticks w) - last)%Z) as [Hel|Hel].
      * right. exists last. eauto using execute_open_trial.
      * left. apply (execute_open_fast_fail b w last); [assumption..|lia].
  - left. exists w. split; [|reflexivity].
    run_breaker. rewrite decide_True by exact Hst. run_breaker.
    rewrite Hlast. destruct w; reflexivity.
Qed.

Lemma attempt_settled b w :
  (1 ≤ failureThreshold opts)%Z →
  (state b = CLOSED ∧ (0 ≤ failures b < failureThreshold opts)%Z)
  ∨ (state b = HALF_OPEN ∧ (failureThreshold opts ≤ failures b)%Z) →
  settled opts (attempt (b, w)).2.1.
Proof.
  intros Hth Hb. destruct (fn (calls w)) as [r|e] eqn:Hfn.
  - rewrite (attempt_success _ _ _ Hfn). left. cbn. split; [|lia].
    destruct Hb as [[-> _]|[-> _]]; reflexivity.
  - rewrite (attempt_failure _ _ _ Hfn). unfold settled. cbn.
    destruct (decide (failureThreshold opts ≤ failures b + 1)%Z) as [Hge|Hlt].
    + right. split; [reflexivity|]. split; [exact Hge|]. eexists; reflexivity.
    + left. destruct Hb as [[Hst Hf]|[Hst Hf]]; [split; [exact Hst|lia] | lia].
Qed.

Lemma execute_settled b w :
  (1 ≤ failureThreshold opts)%Z →
  settled opts b → settled opts (execute (b, w)).2.1.
Proof.
  intros Hth [[Hst Hf]|(Hst & Hf & Hlast)].
  - rewrite execute_not_open by congruence. apply attempt_settled; auto.
  - destruct (execute_open_cases b w Hst) as [(w' & -> & _)|(last & _ & _ & ->)].
    + right. auto.
    + apply attempt_settled; [exact Hth|]. right. split; [reflexivity|exact Hf].
Qed.

Lemma reachable_settled s :
  (1 ≤ failureThreshold opts)%Z → reachable opts clock fn s → settled opts s.1.
Proof.
  intros Hth Hs. induction Hs as [w|[b w] _ IH].
  - left. cbn. split; [reflexivity|lia].
  - apply execute_settled; assumption.
Qed.


(** C3: a call of [execute] on a breaker that is OPEN, made no more than
    [timeout] after [lastFailureTime], throws the error "Circuit breaker
    is OPEN" without invoking [fn] and leaves the breaker, its count of
    failures included, as it was. *)
Theorem open_breaker_fails_fast b w last :
  state b = OPEN → lastFailureTime b = Some last →
  (clock (ticks w) - last ≤ timeout opts)%Z →
  ∃ w', execute (b, w) = (inr (Error "Circuit breaker is OPEN"), (b, w'))
        ∧ calls w' = calls w
        ∧ failures (execute (b, w)).2.1 = failures b.
Proof.
  intros Hst Hlast Hnot.
  destruct (execute_open_fast_fail b w last Hst Hlast Hnot) as (w' & Hex & Hc).
  exists w'. rewrite Hex. auto.
Qed.
End BreakerFacts.

Section MonitorWindow.
Import JS CircuitBreaker BreakerNotions.
Context {R : Type}.
Variable opts : options.
Variable clock : nat -> Z.
Variable fn : nat -> R + error.
Variable x : Z.

Lemma executeMany_S (o : options) n s :
  executeMany o clock fn (S n) s
  = ((execute o clock fn s).1
       :: (executeMany o clock fn n (execute o clock fn s).2).1,
     (executeMany o clock fn n (execute o clock fn s).2).2).
Proof. reflexivity. Qed.

Lemma execute_monitorWindow b1 b2 w :
  same_circuit b1 b2 →
  (execute opts clock fn (b1, w)).1
  = (execute (with_monitorWindow x opts) clock fn (b2, w)).1
  ∧ same_circuit (execute opts clock fn (b1, w)).2.1
                 (execute (with_monitorWindow x opts) clock fn (b2, w)).2.1
  ∧ (execute opts clock fn (b1, w)).2.2
    = (execute (with_monitorWindow x opts) clock fn (b2, w)).2.2.
Proof.
  intros (Hst & Hf & Hl). unfold same_circuit.
  assert (∀ st f l s1 s2,
            same_circuit
              {| state := st; failures := f; lastFailureTime := l; successes := s1 |}
              {| state := st; failures := f; lastFailureTime := l; successes := s2 |})
    as Hsame by (intros; repeat split).
  destruct b1 as [st f l s1], b2 as [st2 f2 l2 s2]. cbn in Hst, Hf, Hl. subst st2 f2 l2.
  run_breaker. cbn [with_monitorWindow failureThreshold timeout monitorWindow].
  destruct (decide (st = OPEN)) as [Ho|Ho]; run_breaker.
  - destruct l as [last|]; run_breaker; [|auto].
    destruct (decide (last = 0%Z)); run_breaker; [auto|].
    destruct (bool_decide _); run_breaker; [|auto].
    destruct (fn (calls w)); run_breaker; repeat case_decide; cbn; auto; congruence.
  - destruct (fn (calls w)); run_breaker; repeat case_decide; cbn; auto; congruence.
Qed.

Lemma executeMany_monitorWindow n b1 b2 w :
  same_circuit b1 b2 →
  (executeMany opts clock fn n (b1, w)).1
  = (executeMany (with_monitorWindow x opts) clock fn n (b2, w)).1
  ∧ same_circuit (executeMany opts clock fn n (b1, w)).2.1
                 (executeMany (with_monitorWindow x opts) clock fn n (b2, w)).2.1
  ∧ (executeMany opts clock fn n (b1, w)).2.2
    = (executeMany (with_monitorWindow x opts) clock fn n (b2, w)).2.2.
Proof.
  revert b1 b2 w. induction n as [|n IH]; intros b1 b2 w Hsame.
  - repeat split; exact Hsame || apply Hsame.
  - rewrite !executeMany_S. cbn [fst snd].
    destruct (execute_monitorWindow b1 b2 w Hsame) as (Hr & Hb & Hw).
    destruct (execute opts clock fn (b1, w)) as [r1 [b1' w1]].
    destruct (execute (with_monitorWindow x opts) clock fn (b2, w)) as [r2 [b2' w2]].
    cbn [fst snd] in *. subst r2 w2.
    destruct (IH b1' b2' w1 Hb) as (Hrs & Hbs & Hws).
    rewrite Hrs. repeat split; assumption || apply Hbs.
Qed.

(** C9 (as amended): a call that succeeds while the breaker is CLOSED
    sets [failures] to 0 and leaves it CLOSED; a call that fails while it
    is CLOSED adds one to [failures] whatever the clock reads, and opens
    the breaker when that reaches the threshold; and [monitorWindow]
    bears on [successes] only: with another window the same calls have
    the same outcomes and leave the same state, count of failures, time
    of the last failure and environment. *)
Theorem monitorWindow_bounds_successes_only b w n :
  (state b = CLOSED →
   ∀ r, fn (calls w) = inl r →
        failures (execute opts clock fn (b, w)).2.1 = 0%Z
        ∧ state (execute opts clock fn (b, w)).2.1 = CLOSED)
  ∧ (state b = CLOSED →
     ∀ e, fn (calls w) = inr e →
          failures (execute opts clock fn (b, w)).2.1 = (failures b + 1)%Z
          ∧ (state (execute opts clock fn (b, w)).2.1 = OPEN
             ↔ (failureThreshold opts ≤ failures b + 1)%Z))
  ∧ (executeMany opts clock fn n (b, w)).1
    = (executeMany (with_monitorWindow x opts) clock fn n (b, w)).1
  ∧ same_circuit (executeMany opts clock fn n (b, w)).2.1
                 (executeMany (with_monitorWindow x opts) clock fn n (b, w)).2.1
  ∧ (executeMany opts clock fn n (b, w)).2.2
    = (executeMany (with_monitorWindow x opts) clock fn n (b, w)).2.2.
Proof.
  split; [|split].
  - intros Hst r Hfn. rewrite execute_not_open by congruence.
    rewrite (attempt_success _ _ _ _ _ _ Hfn). cbn. rewrite Hst.
    destruct (decide _); auto.
  - intros Hst e Hfn. rewrite execute_not_open by congruence.
    rewrite (attempt_failure _ _ _ _ _ _ Hfn). cbn. split; [reflexivity|].
    destruct (decide _); split; intros; congruence || lia.
  - apply executeMany_monitorWindow. repeat split.
Qed.
End MonitorWindow.


Lemma open_breaker_fails_fast_witness :
  CircuitBreaker.state BreakerSample.tripped = CircuitBreaker.OPEN
  ∧ CircuitBreaker.lastFailureTime BreakerSample.tripped = Some 1000000%Z
  ∧ (BreakerSample.slow_clock 0 - 1000000 ≤ CircuitBreaker.timeout BreakerSample.two_strikes)%Z
  ∧ ∃ w', CircuitBreaker.execute BreakerSample.two_strikes BreakerSample.slow_clock
            BreakerSample.never_down (BreakerSample.tripped, BreakerSample.w0)
          = (inr (JS.Error "Circuit breaker is OPEN"), (BreakerSample.tripped, w'))
          ∧ CircuitBreaker.calls w' = 0%nat.
Proof.
  assert (BreakerSample.slow_clock 0 - 1000000
          ≤ CircuitBreaker.timeout BreakerSample.two_strikes)%Z as Hnot
    by (vm_compute; discriminate).
  split; [reflexivity|]. split; [reflexivity|]. split; [exact Hnot|].
  destruct (open_breaker_fails_fast BreakerSample.two_strikes
              BreakerSample.slow_clock BreakerSample.never_down
              BreakerSample.tripped BreakerSample.w0 1000000%Z
              eq_refl eq_refl Hnot) as (w' & Hex & Hc & _).
  exists w'. split; [exact Hex|exact Hc].
Defined.

Lemma monitorWindow_bounds_successes_only_witness :
  CircuitBreaker.state CircuitBreaker.fresh = CircuitBreaker.CLOSED
  ∧ BreakerSample.never_down 0 = inl tt
  ∧ CircuitBreaker.failures
      (CircuitBreaker.execute BreakerSample.two_strikes BreakerSample.slow_clock
         BreakerSample.never_down (CircuitBreaker.fresh, BreakerSample.w0)).2.1 = 0%Z.
Proof.
  split; [reflexivity|]. split; [reflexivity|].
  exact (proj1 (proj1 (monitorWindow_bounds_successes_only
                         BreakerSample.two_strikes BreakerSample.slow_clock
                         BreakerSample.never_down 0%Z
                         CircuitBreaker.fresh BreakerSample.w0 0)
                      eq_refl tt eq_refl)).
Defined.

(** C9 as stated fails: the breaker opens at a second failure that comes
    a thousand seconds after the first, with a window of ten seconds that
    holds one failure only. *)
Lemma breaker_counts_failure_older_than_window :
  let run := CircuitBreaker.executeMany BreakerSample.two_strikes
               BreakerSample.slow_clock BreakerSample.always_down 2
               (CircuitBreaker.fresh, BreakerSample.w0) in
  run.1 = [inr (JS.Error "down"); inr (JS.Error "down")]
  ∧ CircuitBreaker.lastFailureTime run.2.1 = Some (BreakerSample.slow_clock 1)
  ∧ BreakerNotions.failures_in_window BreakerSample.two_strikes
      (BreakerSample.slow_clock 1)
      [BreakerSample.slow_clock 0; BreakerSample.slow_clock 1] = 1%nat
  ∧ (1 < CircuitBreaker.failureThreshold BreakerSample.two_strikes)%Z
  ∧ CircuitBreaker.state run.2.1 = CircuitBreaker.OPEN.
Proof. cbv zeta. repeat split; vm_compute; reflexivity. Qed.

(** ** The retry manager *)

Section RetryFacts.
Import JS RetryManager.
Context {R : Type}.
Variable opts : options.
Variable fn : nat -> R + error.
Variable random : nat -> Q.

#[local] Abbreviation loop := (loop opts fn random).
#[local] Abbreviation execute := (execute opts fn random).
#[local] Abbreviation calculateDelay := (calculateDelay opts random).

Lemma calculateDelay_calls attempt w :
  calls (calculateDelay attempt w).2 = calls w.
Proof.
  unfold RetryManager.calculateDelay. destruct (jitter opts); reflexivity.
Qed.

Lemma loop_step fuel attempt lastError w :
  loop (S fuel) attempt lastError w
  = if decide (attempt ≤ maxAttempts opts)%Z then
      match fn (calls w) with
      | inl result => Some (inl result, (call_fn fn w).2)
      | inr error =>
          if bool_decide (attempt = maxAttempts opts)
             || negb (retryCondition opts error)
          then Some (inr (Some error), (call_fn fn w).2)
          else loop fuel (attempt + 1) (Some error)
                 (sleep (calculateDelay attempt (call_fn fn w).2).1
                    (calculateDelay attempt (call_fn fn w).2).2)
      end
    else Some (inr lastError, w).
Proof.
  cbn [RetryManager.loop]. destruct (decide _); [|reflexivity].
  unfold call_fn at 1. cbn [fst snd].
  destruct (fn (calls w)); [reflexivity|].
  destruct (_ || _); [reflexivity|].
  destruct (calculateDelay attempt _). reflexivity.
Qed.

(** The loop ends when it has fuel for the turns that are left, after
    at least one and at most that many invocations. *)
Lemma loop_calls fuel attempt lastError w :
  (Z.to_nat (maxAttempts opts - attempt + 1) < fuel)%nat →
  ∃ r w', loop fuel attempt lastError w = Some (r, w')
          ∧ ((attempt ≤ maxAttempts opts)%Z → (calls w < calls w')%nat)
          ∧ (Z.of_nat (calls w') - Z.of_nat (calls w)
             ≤ Z.max 0 (maxAttempts opts - attempt + 1))%Z.
Proof.
  revert attempt lastError w.
  induction fuel as [|fuel IH]; intros attempt lastError w Hfuel; [lia|].
  rewrite loop_step.
  destruct (decide (attempt ≤ maxAttempts opts)%Z) as [Hle|Hgt].
  - destruct (fn (calls w)) as [result|error].
    + eexists _, _. split; [reflexivity|]. cbn. split; lia.
    + destruct (bool_decide (attempt = maxAttempts opts)
                || negb (retryCondition opts error)) eqn:Hstop.
      * eexists _, _. split; [reflexivity|]. cbn. split; lia.
      * apply orb_false_elim in Hstop as [Hne _].
        apply bool_decide_eq_false in Hne.
        destruct (IH (attempt + 1)%Z (Some error)
                    (sleep (calculateDelay attempt (call_fn fn w).2).1
                       (calculateDelay attempt (call_fn fn w).2).2))
          as (r & w' & Hloop & Hleast & Hmost); [lia|].
        exists r, w'. split; [exact Hloop|].
        cbn [sleep calls] in Hleast, Hmost.
        rewrite calculateDelay_calls in Hleast, Hmost. cbn in Hleast, Hmost.
        split; lia.
  - eexists _, _. split; [reflexivity|]. split; lia.
Qed.

(** C4: with [maxAttempts] at least one, [execute] ends, and by then it
    has invoked [fn] at least once and at most [maxAttempts] times,
    whatever [fn] and [retryCondition] do. *)
Theorem execute_invokes_fn_at_most_maxAttempts w :
  (1 ≤ maxAttempts opts)%Z →
  ∃ r w', execute w = Some (r, w')
          ∧ (calls w < calls w')%nat
          ∧ (Z.of_nat (calls w') - Z.of_nat (calls w) ≤ maxAttempts opts)%Z.
Proof.
  intros Hmax. unfold RetryManager.execute.
  destruct (loop_calls (S (Z.to_nat (maxAttempts opts))) 1 None w)
    as (r & w' & Hloop & Hleast & Hmost); [lia|].
  exists r, w'. split; [exact Hloop|]. split; [apply Hleast; lia | lia].
Qed.

(** The loop from the turn [j] on, when the turns before [a] throw
    errors that are retried and the turn [a] throws [e] and stops. *)
Lemma loop_throws (a : nat) e (d : nat) :
  (Z.of_nat a ≤ maxAttempts opts)%Z →
  (∀ k, (k < a - 1)%nat → ∃ e', fn k = inr e' ∧ retryCondition opts e' = true) →
  fn (a - 1)%nat = inr e →
  Z.of_nat a = maxAttempts opts ∨ retryCondition opts e = false →
  ∀ (j : nat) fuel lastError w,
    (1 ≤ j)%nat → (j + d = a)%nat → calls w = (j - 1)%nat → (d < fuel)%nat →
    ∃ w', loop fuel (Z.of_nat j) lastError w = Some (inr (Some e), w')
          ∧ calls w' = a.
Proof.
  intros Hmax Hbefore Hlast Hstop.
  induction d as [|d IH]; intros j fuel lastError w Hj Hd Hcalls Hfuel;
    (destruct fuel as [|fuel]; [lia|]); rewrite loop_step;
    rewrite decide_True by lia; rewrite Hcalls.
  - replace (j - 1)%nat with (a - 1)%nat by lia. rewrite Hlast.
    replace (bool_decide (Z.of_nat j = maxAttempts opts)
             || negb (retryCondition opts e)) with true.
    + eexists. split; [reflexivity|]. cbn. lia.
    + symmetry. apply orb_true_iff. destruct Hstop as [Heq|Hno].
      * left. apply bool_decide_eq_true. lia.
      * right. rewrite Hno. reflexivity.
  - destruct (Hbefore (j - 1)%nat) as (e' & He' & Hretry); [lia|].
    rewrite He', Hretry. rewrite bool_decide_eq_false_2 by lia. cbn [orb negb].
    replace (Z.of_nat j + 1)%Z with (Z.of_nat (S j)) by lia.
    apply IH; try lia.
    cbn [sleep calls]. rewrite calculateDelay_calls. cbn. lia.
Qed.

(** C8 (as amended): when the attempts before attempt [a] throw errors
    that are retried, and attempt [a] throws [e] and is the last one
    allowed or [e] is not to be retried, [execute] throws [e] itself, the
    error that [fn] threw, after [a] invocations. *)
Theorem execute_throws_the_error_of_fn (a : nat) e :
  (1 ≤ a)%nat → (Z.of_nat a ≤ maxAttempts opts)%Z →
  (∀ k, (k < a - 1)%nat → ∃ e', fn k = inr e' ∧ retryCondition opts e' = true) →
  fn (a - 1)%nat = inr e →
  Z.of_nat a = maxAttempts opts ∨ retryCondition opts e = false →
  ∃ w', execute start = Some (inr (Some e), w') ∧ calls w' = a.
Proof.
  intros Ha Hmax Hbefore Hlast Hstop. unfold RetryManager.execute.
  apply (loop_throws a e (a - 1) Hmax Hbefore Hlast Hstop 1%nat);
    cbn; lia.
Qed.

(** C7 (as amended): without jitter the delay before the retry that
    follows attempt [a] is [min(baseDelay * backoffFactor^(a-1),
    maxDelay)], it is at most [maxDelay], and no random number is drawn;
    when [baseDelay] is not negative and [backoffFactor] is at least one,
    the delay after the next attempt is not smaller. *)
Theorem calculateDelay_without_jitter (a : Z) w :
  jitter opts = false → (1 ≤ a)%Z →
  (calculateDelay a w).1
  = Qmin (baseDelay opts * backoffFactor opts ^ (a - 1)) (maxDelay opts)
  ∧ ((calculateDelay a w).1 <= maxDelay opts)%Q
  ∧ (calculateDelay a w).2 = w
  ∧ ((0 <= baseDelay opts)%Q → (1 <= backoffFactor opts)%Q →
     ((calculateDelay a w).1 <= (calculateDelay (a + 1) w).1)%Q).
Proof.
  intros Hj Ha. unfold RetryManager.calculateDelay. rewrite Hj. cbn [fst snd].
  split; [reflexivity|]. split; [apply Q.le_min_r|]. split; [reflexivity|].
  intros Hbase Hfactor. apply Q.min_le_compat_r.
  rewrite !(Qmult_comm (baseDelay opts)).
  apply Qmult_le_compat_r; [|exact Hbase].
  apply Qpower_le_compat_l; [lia|exact Hfactor].
Qed.
End RetryFacts.

Lemma execute_invokes_fn_at_most_maxAttempts_witness :
  (1 ≤ RetryManager.maxAttempts (RetrySample.policy 2 2))%Z
  ∧ ∃ r w', RetryManager.execute (RetrySample.policy 2 2)
              RetrySample.always_offline RetrySample.half RetryManager.start
            = Some (r, w')
            ∧ (0 < RetryManager.calls w')%nat
            ∧ (Z.of_nat (RetryManager.calls w') - 0 ≤ 2)%Z.
Proof.
  assert (1 ≤ RetryManager.maxAttempts (RetrySample.policy 2 2))%Z as Hmax
    by (cbn; lia).
  split; [exact Hmax|].
  exact (execute_invokes_fn_at_most_maxAttempts (RetrySample.policy 2 2)
           RetrySample.always_offline RetrySample.half RetryManager.start Hmax).
Defined.

Lemma execute_throws_the_error_of_fn_witness :
  ∃ w', RetryManager.execute (RetrySample.policy 2 2)
          RetrySample.always_offline RetrySample.half RetryManager.start
        = Some (inr (Some RetrySample.offline), w')
        ∧ RetryManager.calls w' = 2%nat.
Proof.
  apply (execute_throws_the_error_of_fn (RetrySample.policy 2 2)
           RetrySample.always_offline RetrySample.half 2 RetrySample.offline).
  - lia.
  - cbn. lia.
  - intros k Hk. exists RetrySample.offline. split; reflexivity.
  - reflexivity.
  - left. reflexivity.
Defined.

Lemma calculateDelay_without_jitter_witness :
  RetryManager.jitter (RetrySample.policy 3 2) = false
  ∧ (1 ≤ 2)%Z
  ∧ ((RetryManager.calculateDelay (RetrySample.policy 3 2) RetrySample.half 2
        RetryManager.start).1
     <= (RetryManager.calculateDelay (RetrySample.policy 3 2) RetrySample.half 3
           RetryManager.start).1)%Q.
Proof.
  assert (1 ≤ 2)%Z as H12 by lia.
  split; [reflexivity|]. split; [exact H12|].
  refine (proj2 (proj2 (proj2 (calculateDelay_without_jitter
            (RetrySample.policy 3 2) RetrySample.half 2 RetryManager.start
            eq_refl H12))) _ _); vm_compute; discriminate.
Defined.

(** C7 as stated fails for a factor below one: with a base of 1000 and a
    factor of 1/2 the first delay is 1000 and the second is 500. *)
Lemma calculateDelay_decreases_for_small_factor :
  RetryManager.jitter (RetrySample.policy 3 (1 # 2)) = false
  ∧ ((RetryManager.calculateDelay (RetrySample.policy 3 (1 # 2)) RetrySample.half 1
        RetryManager.start).1 == 1000)%Q
  ∧ ((RetryManager.calculateDelay (RetrySample.policy 3 (1 # 2)) RetrySample.half 2
        RetryManager.start).1 == 500)%Q
  ∧ ¬ ((RetryManager.calculateDelay (RetrySample.policy 3 (1 # 2)) RetrySample.half 1
          RetryManager.start).1
       <= (RetryManager.calculateDelay (RetrySample.policy 3 (1 # 2)) RetrySample.half 2
             RetryManager.start).1)%Q.
Proof.
  split; [reflexivity|]. split; [reflexivity|]. split; [reflexivity|].
  intros H. vm_compute in H. apply H. reflexivity.
Qed.

(** C8 as stated fails: the error thrown is the error of [fn] as it is.
    One attempt and two attempts end with the same error, which therefore
    does not tell how many were made. *)
Lemma execute_error_carries_no_attempt_count :
  RetryManager.execute (RetrySample.policy 1 2) RetrySample.always_offline
    RetrySample.half RetryManager.start
  = Some (inr (Some RetrySample.offline),
          {| RetryManager.calls := 1; RetryManager.randoms := 0;
             RetryManager.sleeps := [] |})
  ∧ RetryManager.execute (RetrySample.policy 2 2) RetrySample.always_offline
      RetrySample.half RetryManager.start
    = Some (inr (Some RetrySample.offline),
            {| RetryManager.calls := 2; RetryManager.randoms := 0;
               RetryManager.sleeps := [1000%Q] |}).
Proof. split; vm_compute; reflexivity. Qed.

(** ** More on the circuit breaker *)

Section BreakerMore.
Import JS CircuitBreaker BreakerNotions BreakerState.
Context {R : Type}.
Variable opts : options.
Variable clock : nat -> Z.
Variable fn : nat -> R + error.

#[local] Abbreviation execute := (execute opts clock fn).
#[local] Abbreviation executeMany := (executeMany opts clock fn).

Lemma execute_calls b w :
  (calls w ≤ calls (execute (b, w)).2.2 ≤ S (calls w))%nat.
Proof.
  destruct (decide (state b = OPEN)) as [Ho|Ho].
  - destruct (execute_open_cases opts clock fn b w Ho)
      as [(w' & -> & Hc)|(last & _ & _ & ->)].
    + cbn. lia.
    + destruct (fn (calls w)) as [r|e] eqn:Hfn.
      * rewrite (attempt_success opts clock fn _ _ r) by exact Hfn. cbn. lia.
      * rewrite (attempt_failure opts clock fn _ _ e) by exact Hfn. cbn. lia.
  - rewrite execute_not_open by exact Ho.
    destruct (fn (calls w)) as [r|e] eqn:Hfn.
    + rewrite (attempt_success opts clock fn _ _ r) by exact Hfn. cbn. lia.
    + rewrite (attempt_failure opts clock fn _ _ e) by exact Hfn. cbn. lia.
Qed.

(** X1: one call of [execute] invokes [fn] at most once, so [n] calls
    give [n] outcomes and invoke [fn] at most [n] times. *)
Theorem execute_invokes_fn_at_most_once n b w :
  length (executeMany n (b, w)).1 = n
  ∧ (calls w ≤ calls (executeMany n (b, w)).2.2 ≤ calls w + n)%nat.
Proof.
  revert b w. induction n as [|n IH]; intros b w.
  - cbn. split; [reflexivity|lia].
  - rewrite executeMany_S. cbn [fst snd length].
    pose proof (execute_calls b w) as Hone.
    destruct (execute (b, w)) as [r [b' w']]. cbn [fst snd] in *.
    destruct (IH b' w') as [Hlen Hcalls]. split; [congruence|lia].
Qed.

(** X2: with a threshold of at least one, between calls a breaker that
    was new is never HALF_OPEN, it is OPEN exactly when [failures] has
    reached [failureThreshold], [failures] is never negative, and an OPEN
    breaker has a [lastFailureTime]. *)
Theorem breaker_state_tracks_failures s :
  (1 ≤ failureThreshold opts)%Z →
  reachable opts clock fn s →
  state s.1 ≠ HALF_OPEN
  ∧ (state s.1 = OPEN ↔ (failureThreshold opts ≤ failures s.1)%Z)
  ∧ (0 ≤ failures s.1)%Z
  ∧ (state s.1 = OPEN → is_Some (lastFailureTime s.1)).
Proof.
  intros Hth Hs.
  destruct (reachable_settled opts clock fn s Hth Hs) as [[Hst Hf]|(Hst & Hf & Hl)];
    rewrite Hst; repeat split; try congruence; try lia; auto.
Qed.

(** X3: the trial call.  On a breaker that was new (threshold at least
    one) and is OPEN, a call made more than [timeout] after a
    [lastFailureTime] other than 0 invokes [fn] once; when [fn] returns
    the breaker is CLOSED with no failures, and when [fn] throws it is
    OPEN again with one more failure and the time of this failure. *)
Theorem half_open_trial b w last :
  (1 ≤ failureThreshold opts)%Z →
  reachable opts clock fn (b, w) →
  state b = OPEN → lastFailureTime b = Some last → last ≠ 0%Z →
  (timeout opts < clock (ticks w) - last)%Z →
  calls (execute (b, w)).2.2 = S (calls w)
  ∧ (execute (b, w)).1 = fn (calls w)
  ∧ match fn (calls w) with
    | inl _ =>
        state (execute (b, w)).2.1 = CLOSED
        ∧ failures (execute (b, w)).2.1 = 0%Z
        ∧ lastFailureTime (execute (b, w)).2.1 = Some last
    | inr _ =>
        state (execute (b, w)).2.1 = OPEN
        ∧ failures (execute (b, w)).2.1 = (failures b + 1)%Z
        ∧ lastFailureTime (execute (b, w)).2.1 = Some (clock (S (ticks w)))
    end.
Proof.
  intros Hth Hs Hst Hlast Hz Hel.
  destruct (reachable_settled opts clock fn _ Hth Hs) as [[Hc _]|(_ & Hf & _)];
    cbn [fst] in *; [congruence|].
  rewrite (execute_open_trial opts clock fn b w last) by assumption.
  destruct (fn (calls w)) as [r|e] eqn:Hfn.
  - rewrite (attempt_success opts clock fn _ _ r) by exact Hfn. cbn.
    rewrite Hlast. repeat split; reflexivity.
  - rewrite (attempt_failure opts clock fn _ _ e) by exact Hfn. cbn.
    rewrite decide_True by lia. repeat split; reflexivity.
Qed.

Lemma failures_close_in b w (k : nat) :
  state b = CLOSED → (0 ≤ failures b)%Z →
  (failures b + Z.of_nat k ≤ failureThreshold opts)%Z →
  (∀ i, (i < k)%nat → ∃ e, fn (calls w + i)%nat = inr e) →
  failures (executeMany k (b, w)).2.1 = (failures b + Z.of_nat k)%Z
  ∧ state (executeMany k (b, w)).2.1
    = (if decide ((failures b + Z.of_nat k)%Z = failureThreshold opts ∧ (0 < k)%nat)
       then OPEN else CLOSED)
  ∧ calls (executeMany k (b, w)).2.2 = (calls w + k)%nat
  ∧ ticks (executeMany k (b, w)).2.2 = (ticks w + k)%nat.
Proof.
  revert b w. induction k as [|k IH]; intros b w Hst Hf Hle Hfn.
  - cbn. rewrite decide_False by lia. repeat split; lia || assumption.
  - rewrite executeMany_S. cbn [fst snd].
    destruct (Hfn 0%nat) as [e He]; [lia|]. rewrite Nat.add_0_r in He.
    rewrite execute_not_open by congruence.
    rewrite (attempt_failure opts clock fn _ _ e) by exact He. cbn [fst snd].
    destruct (decide (failureThreshold opts ≤ failures b + 1)%Z) as [Hge|Hlt].
    + assert (k = 0%nat) as -> by lia. cbn.
      rewrite decide_True by lia. repeat split; lia.
    + match goal with
      | |- context [executeMany k (?b1, ?w1)] =>
          destruct (IH b1 w1) as (Hf' & Hst' & Hc' & Ht')
      end; cbn [state failures calls ticks].
      * exact Hst.
      * lia.
      * lia.
      * intros i Hi. replace (S (calls w) + i)%nat with (calls w + S i)%nat by lia.
        apply Hfn. lia.
      * cbn [state failures calls ticks] in *. rewrite Hf', Hst', Hc', Ht'.
        repeat split; try lia.
        destruct (decide ((failures b + 1 + Z.of_nat k)%Z = failureThreshold opts ∧ (0 < k)%nat));
          destruct (decide ((failures b + Z.of_nat (S k))%Z = failureThreshold opts ∧ (0 < S k)%nat));
          try reflexivity; exfalso; lia.
Qed.

(** X4: on a new breaker whose threshold is [n], at least one, [n] calls
    in which [fn] throws every time leave the breaker OPEN with [n]
    failures, after [n] invocations of [fn]; after fewer such calls it is
    still CLOSED. *)
Theorem consecutive_failures_open_the_breaker (n m : nat) w :
  failureThreshold opts = Z.of_nat n → (1 ≤ n)%nat → (m ≤ n)%nat →
  (∀ i, (i < n)%nat → ∃ e, fn (calls w + i)%nat = inr e) →
  failures (executeMany m (fresh, w)).2.1 = Z.of_nat m
  ∧ state (executeMany m (fresh, w)).2.1 = (if decide (m = n) then OPEN else CLOSED)
  ∧ calls (executeMany m (fresh, w)).2.2 = (calls w + m)%nat.
Proof.
  intros Hth Hn Hm Hfn.
  destruct (failures_close_in fresh w m) as (Hf & Hst & Hc & _); cbn; try lia.
  - reflexivity.
  - intros i Hi. apply Hfn. lia.
  - cbn in Hf, Hst. rewrite Hf, Hst, Hc. repeat split; try lia.
    destruct (decide ((0 + Z.of_nat m)%Z = failureThreshold opts ∧ (0 < m)%nat));
      destruct (decide (m = n)); try reflexivity; exfalso; lia.
Qed.

(** X5: an OPEN breaker whose [lastFailureTime] is 0 or [null] stays
    OPEN for good: every call throws the error of the open circuit, without
    reading the clock or invoking [fn], whatever time it is. *)
Theorem open_breaker_without_failure_time_never_closes n b w :
  state b = OPEN →
  lastFailureTime b = Some 0%Z ∨ lastFailureTime b = None →
  executeMany n (b, w)
  = (replicate n (inr (Error "Circuit breaker is OPEN")), (b, w)).
Proof.
  intros Hst Hlast. induction n as [|n IH]; [reflexivity|].
  rewrite executeMany_S.
  assert (execute (b, w) = (inr (Error "Circuit breaker is OPEN"), (b, w))) as ->.
  { run_breaker. rewrite decide_True by exact Hst. run_breaker.
    destruct Hlast as [-> | ->]; [rewrite decide_True by reflexivity|];
      destruct w; reflexivity. }
  cbn [fst snd]. rewrite IH. reflexivity.
Qed.

(** X6: [reset()] makes the breaker new again: [getState()] then shows
    CLOSED, no failures, no successes and no failure time, and the next
    call invokes [fn], also when the breaker was OPEN and [timeout] has not
    passed. *)
Theorem reset_closes_the_breaker b w :
  (getState (reset (b, w)).2).1
  = {| snap_state := CLOSED; snap_failures := 0; snap_successes := 0;
       snap_lastFailureTime := None |}
  ∧ (execute (reset (b, w)).2).1 = fn (calls w)
  ∧ calls (execute (reset (b, w)).2).2.2 = S (calls w).
Proof.
  split; [reflexivity|].
  change (reset (b, w)).2 with (fresh, w).
  rewrite execute_not_open by (cbn; congruence).
  destruct (fn (calls w)) as [r|e] eqn:Hfn.
  - rewrite (attempt_success opts clock fn _ _ r) by exact Hfn. split; reflexivity.
  - rewrite (attempt_failure opts clock fn _ _ e) by exact Hfn. split; reflexivity.
Qed.
End BreakerMore.

Lemma breaker_state_tracks_failures_witness :
  (1 ≤ CircuitBreaker.failureThreshold BreakerSample.two_strikes)%Z
  ∧ BreakerNotions.reachable BreakerSample.two_strikes BreakerSample.slow_clock
      BreakerSample.always_down (CircuitBreaker.fresh, BreakerSample.w0)
  ∧ (0 ≤ CircuitBreaker.failures CircuitBreaker.fresh)%Z.
Proof.
  assert (1 ≤ CircuitBreaker.failureThreshold BreakerSample.two_strikes)%Z as Hth
    by (cbn; lia).
  split; [exact Hth|]. split; [constructor|].
  exact (proj1 (proj2 (proj2 (breaker_state_tracks_failures
           BreakerSample.two_strikes BreakerSample.slow_clock
           BreakerSample.always_down (CircuitBreaker.fresh, BreakerSample.w0)
           Hth (BreakerNotions.reachable_fresh _ _ _ _))))).
Defined.

Lemma struck_twice_reachable :
  BreakerNotions.reachable BreakerSample.two_strikes BreakerSample.slow_clock
    BreakerSample.always_down (BreakerSample2.struck_twice, BreakerSample2.w2).
Proof.
  exact (BreakerNotions.reachable_execute _ _ _ _
           (BreakerNotions.reachable_execute _ _ _ _
              (BreakerNotions.reachable_fresh BreakerSample.two_strikes
                 BreakerSample.slow_clock BreakerSample.always_down
                 BreakerSample.w0))).
Defined.

Lemma half_open_trial_witness :
  CircuitBreaker.state
    (CircuitBreaker.execute BreakerSample.two_strikes BreakerSample.slow_clock
       BreakerSample.always_down
       (BreakerSample2.struck_twice, BreakerSample2.w2)).2.1
  = CircuitBreaker.OPEN
  ∧ CircuitBreaker.failures
      (CircuitBreaker.execute BreakerSample.two_strikes BreakerSample.slow_clock
         BreakerSample.always_down
         (BreakerSample2.struck_twice, BreakerSample2.w2)).2.1 = 3%Z.
Proof.
  assert (1 ≤ CircuitBreaker.failureThreshold BreakerSample.two_strikes)%Z as Hth
    by (cbn; lia).
  assert (BreakerSample.slow_clock 1 ≠ 0%Z) as Hz by (vm_compute; discriminate).
  assert (CircuitBreaker.timeout BreakerSample.two_strikes
          < BreakerSample.slow_clock (CircuitBreaker.ticks BreakerSample2.w2)
            - BreakerSample.slow_clock 1)%Z as Hel by (vm_compute; reflexivity).
  destruct (half_open_trial BreakerSample.two_strikes BreakerSample.slow_clock
              BreakerSample.always_down BreakerSample2.struck_twice
              BreakerSample2.w2 (BreakerSample.slow_clock 1)
              Hth struck_twice_reachable eq_refl eq_refl Hz Hel)
    as (_ & _ & Hst & Hf & _).
  split; [exact Hst|exact Hf].
Defined.

Lemma consecutive_failures_open_the_breaker_witness :
  CircuitBreaker.state
    (CircuitBreaker.executeMany BreakerSample.two_strikes BreakerSample.slow_clock
       BreakerSample.always_down 2 (CircuitBreaker.fresh, BreakerSample.w0)).2.1
  = CircuitBreaker.OPEN.
Proof.
  destruct (consecutive_failures_open_the_breaker BreakerSample.two_strikes
              BreakerSample.slow_clock BreakerSample.always_down 2 2
              BreakerSample.w0 eq_refl) as (_ & Hst & _).
  - lia.
  - lia.
  - intros i _. eexists. reflexivity.
  - exact Hst.
Defined.

Lemma open_breaker_without_failure_time_never_closes_witness :
  CircuitBreaker.executeMany BreakerSample.two_strikes BreakerSample.slow_clock
    BreakerSample.never_down 3 (BreakerSample2.stuck, BreakerSample2.w2)
  = (replicate 3 (inr (JS.Error "Circuit breaker is OPEN")),
     (BreakerSample2.stuck, BreakerSample2.w2)).
Proof.
  exact (open_breaker_without_failure_time_never_closes
           BreakerSample.two_strikes BreakerSample.slow_clock
           BreakerSample.never_down 3 BreakerSample2.stuck BreakerSample2.w2
           eq_refl (or_introl eq_refl)).
Defined.

(** ** More on the retry manager *)

Section RetryMore.
Import JS RetryManager.
Context {R : Type}.
Variable opts : options.
Variable fn : nat -> R + error.
Variable random : nat -> Q.

#[local] Abbreviation loop := (loop opts fn random).
#[local] Abbreviation execute := (execute opts fn random).
#[local] Abbreviation calculateDelay := (calculateDelay opts random).
#[local] Abbreviation plain_delay := (RetryNotions.plain_delay opts).

Lemma calculateDelay_randoms attempt w :
  randoms (calculateDelay attempt w).2
  = (if jitter opts then S (randoms w) else randoms w)
  ∧ sleeps (calculateDelay attempt w).2 = sleeps w.
Proof.
  unfold RetryManager.calculateDelay. destruct (jitter opts); split; reflexivity.
Qed.

Lemma calculateDelay_plain attempt w :
  jitter opts = false → calculateDelay attempt w = (plain_delay attempt, w).
Proof.
  intros Hj. unfold RetryManager.calculateDelay. rewrite Hj. reflexivity.
Qed.

(** X7: with [maxAttempts] below one, [execute] throws [null] at once:
    [fn] is not invoked and nothing is slept. *)
Theorem execute_without_attempts_throws_null w :
  (maxAttempts opts < 1)%Z → execute w = Some (inr None, w).
Proof.
  intros Hmax. unfold RetryManager.execute. rewrite loop_step.
  rewrite decide_False by lia. reflexivity.
Qed.

Lemma loop_sleeps fuel attempt lastError w r w' :
  loop fuel attempt lastError w = Some (r, w') →
  (attempt ≤ maxAttempts opts)%Z →
  (length (sleeps w') + calls w + 1 = length (sleeps w) + calls w')%nat
  ∧ (randoms w' - randoms w
     = if jitter opts then length (sleeps w') - length (sleeps w) else 0)%nat
  ∧ (randoms w ≤ randoms w')%nat ∧ (length (sleeps w) ≤ length (sleeps w'))%nat.
Proof.
  revert attempt lastError w.
  induction fuel as [|fuel IH]; intros attempt lastError w Hloop Hle; [discriminate|].
  rewrite loop_step in Hloop. rewrite decide_True in Hloop by exact Hle.
  destruct (fn (calls w)) as [result|error].
  - injection Hloop as <- <-. cbn. destruct (jitter opts); repeat split; lia.
  - destruct (bool_decide (attempt = maxAttempts opts)
              || negb (retryCondition opts error)) eqn:Hstop.
    + injection Hloop as <- <-. cbn. destruct (jitter opts); repeat split; lia.
    + apply orb_false_elim in Hstop as [Hne _].
      apply bool_decide_eq_false in Hne.
      apply IH in Hloop; [|lia].
      cbn [sleep calls sleeps randoms] in Hloop.
      rewrite calculateDelay_calls in Hloop.
      destruct (calculateDelay_randoms attempt (call_fn fn w).2) as [Hr Hs].
      rewrite Hr, Hs, length_app in Hloop. cbn in Hloop.
      destruct (jitter opts); repeat split; lia.
Qed.

(** X8: with [maxAttempts] at least one, when [execute] ends it has slept
    once less than it has invoked [fn]: there is a delay between two
    attempts and none after the last one.  With jitter it has drawn one
    random number per delay, and none without. *)
Theorem execute_sleeps_between_attempts r w' :
  (1 ≤ maxAttempts opts)%Z →
  execute start = Some (r, w') →
  (length (sleeps w') + 1 = calls w')%nat
  ∧ randoms w' = (if jitter opts then length (sleeps w') else 0%nat).
Proof.
  intros Hmax Hex. unfold RetryManager.execute in Hex.
  apply loop_sleeps in Hex as (Hs & Hr & _); [|lia].
  cbn in Hs, Hr. split; [lia|]. destruct (jitter opts); lia.
Qed.

(** The loop from the turn [j] on, when [fn] throws errors that are
    retried up to its invocation [k], which returns. *)
Lemma loop_returns (k : nat) r (d : nat) :
  (Z.of_nat k < maxAttempts opts)%Z →
  (∀ i, (i < k)%nat → ∃ e, fn i = inr e ∧ retryCondition opts e = true) →
  fn k = inl r →
  jitter opts = false →
  ∀ (j : nat) fuel lastError w,
    (j + d = k)%nat → calls w = j → (d < fuel)%nat →
    ∃ w', loop fuel (Z.of_nat (S j)) lastError w = Some (inl r, w')
          ∧ calls w' = S k
          ∧ randoms w' = randoms w
          ∧ sleeps w'
            = sleeps w ++ map (λ i, plain_delay (Z.of_nat (S i))) (seq j d).
Proof.
  intros Hmax Hbefore Hlast Hj.
  induction d as [|d IH]; intros j fuel lastError w Hd Hcalls Hfuel;
    (destruct fuel as [|fuel]; [lia|]); rewrite loop_step;
    rewrite decide_True by lia; rewrite Hcalls.
  - replace j with k by lia. rewrite Hlast.
    eexists. split; [reflexivity|]. cbn. rewrite app_nil_r. repeat split. lia.
  - destruct (Hbefore j) as (e & He & Hretry); [lia|].
    rewrite He, Hretry. rewrite bool_decide_eq_false_2 by lia. cbn [orb negb].
    rewrite calculateDelay_plain by exact Hj. cbn [fst snd].
    replace (Z.of_nat (S j) + 1)%Z with (Z.of_nat (S (S j))) by lia.
    destruct (IH (S j) fuel (Some e)
                (sleep (plain_delay (Z.of_nat (S j))) (call_fn fn w).2))
      as (w' & Hloop & Hc & Hr & Hs); try lia.
    { cbn. lia. }
    exists w'. split; [exact Hloop|]. split; [exact Hc|]. split; [exact Hr|].
    rewrite Hs. cbn [sleep sleeps call_fn snd seq map]. rewrite <- app_assoc.
    reflexivity.
Qed.

(** X9: when the first [k] invocations of [fn] throw errors that are
    retried, [k] is below [maxAttempts] and the next invocation returns
    [r], [execute] returns [r] after [k + 1] invocations; without jitter it
    has slept [min(baseDelay * backoffFactor^i, maxDelay)] after the
    failure number [i + 1], in that order, and drawn no random number. *)
Theorem execute_returns_after_retries (k : nat) r :
  (Z.of_nat k < maxAttempts opts)%Z →
  (∀ i, (i < k)%nat → ∃ e, fn i = inr e ∧ retryCondition opts e = true) →
  fn k = inl r →
  jitter opts = false →
  ∃ w', execute start = Some (inl r, w')
        ∧ calls w' = S k
        ∧ randoms w' = 0%nat
        ∧ sleeps w'
          = map (λ i, Qmin (baseDelay opts * backoffFactor opts ^ Z.of_nat i)
                           (maxDelay opts))
                (seq 0 k).
Proof.
  intros Hmax Hbefore Hlast Hj. unfold RetryManager.execute.
  destruct (loop_returns k r k Hmax Hbefore Hlast Hj 0%nat
              (S (Z.to_nat (maxAttempts opts))) None start)
    as (w' & Hloop & Hc & Hr & Hs); try lia; try reflexivity.
  exists w'. split; [exact Hloop|]. split; [exact Hc|]. split; [exact Hr|].
  rewrite Hs. cbn [start sleeps app]. apply map_ext. intros i.
  unfold RetryNotions.plain_delay. replace (Z.of_nat (S i) - 1)%Z with (Z.of_nat i) by lia.
  reflexivity.
Qed.

(** X10: with jitter, for a random number in [0, 1) and a delay before
    jitter that is not negative, the delay is at least half the delay
    before jitter and at most that delay, hence at most [maxDelay]; one
    random number is drawn. *)
Theorem calculateDelay_with_jitter attempt w :
  jitter opts = true →
  (0 <= random (randoms w))%Q → (random (randoms w) < 1)%Q →
  (0 <= plain_delay attempt)%Q →
  (plain_delay attempt * (1 # 2) <= (calculateDelay attempt w).1)%Q
  ∧ ((calculateDelay attempt w).1 <= plain_delay attempt)%Q
  ∧ ((calculateDelay attempt w).1 <= maxDelay opts)%Q
  ∧ randoms (calculateDelay attempt w).2 = S (randoms w).
Proof.
  intros Hj Hr0 Hr1 Hd. unfold RetryManager.calculateDelay. rewrite Hj.
  cbn [Math_random fst snd randoms]. fold (plain_delay attempt).
  set (d := plain_delay attempt) in *. set (x := random (randoms w)) in *.
  assert ((1 # 2) <= (1 # 2) + x * (1 # 2))%Q as Hlow.
  { destruct x as [xn xd]. unfold Qle in *. cbn in *. lia. }
  assert ((1 # 2) + x * (1 # 2) <= 1)%Q as Hhigh.
  { apply Qlt_le_weak in Hr1. destruct x as [xn xd]. unfold Qle in *. cbn in *. lia. }
  assert (d * ((1 # 2) + x * (1 # 2)) <= d)%Q as Hup.
  { rewrite <- (Qmult_1_r d) at 2. rewrite !(Qmult_comm d).
    apply Qmult_le_compat_r; assumption. }
  repeat split.
  - rewrite !(Qmult_comm d). apply Qmult_le_compat_r; assumption.
  - exact Hup.
  - eapply Qle_trans; [exact Hup|]. apply Q.le_min_r.
Qed.
End RetryMore.

Lemma execute_without_attempts_throws_null_witness :
  RetryManager.execute (RetrySample.policy 0 2) RetrySample.always_offline
    RetrySample.half RetryManager.start
  = Some (inr None, RetryManager.start).
Proof.
  apply (execute_without_attempts_throws_null (RetrySample.policy 0 2)
           RetrySample.always_offline RetrySample.half RetryManager.start).
  cbn. lia.
Defined.

Lemma execute_sleeps_between_attempts_witness :
  (1 ≤ RetryManager.maxAttempts (RetrySample.policy 2 2))%Z
  ∧ ∃ w', RetryManager.execute (RetrySample.policy 2 2)
            RetrySample.always_offline RetrySample.half RetryManager.start
          = Some (inr (Some RetrySample.offline), w')
          ∧ (length (RetryManager.sleeps w') + 1 = RetryManager.calls w')%nat.
Proof.
  assert (1 ≤ RetryManager.maxAttempts (RetrySample.policy 2 2))%Z as Hmax
    by (cbn; lia).
  split; [exact Hmax|].
  exists {| RetryManager.calls := 2; RetryManager.randoms := 0;
            RetryManager.sleeps := [1000%Q] |}.
  split; [reflexivity|].
  exact (proj1 (execute_sleeps_between_attempts (RetrySample.policy 2 2)
                  RetrySample.always_offline RetrySample.half
                  (inr (Some RetrySample.offline)) _ Hmax eq_refl)).
Defined.

Lemma execute_returns_after_retries_witness :
  ∃ w', RetryManager.execute (RetrySample.policy 3 2) RetrySample2.flaky
          RetrySample.half RetryManager.start
        = Some (inl tt, w')
        ∧ RetryManager.calls w' = 3%nat.
Proof.
  destruct (execute_returns_after_retries (RetrySample.policy 3 2)
              RetrySample2.flaky RetrySample.half 2 tt)
    as (w' & Hex & Hc & _).
  - cbn. lia.
  - intros i Hi. exists RetrySample.offline.
    destruct i as [|[|i]]; [split; reflexivity..|lia].
  - reflexivity.
  - reflexivity.
  - exists w'. split; assumption.
Defined.

Lemma calculateDelay_with_jitter_witness :
  ((RetryManager.calculateDelay RetryManager.default_options RetrySample.half 1
      RetryManager.start).1 <= RetryManager.maxDelay RetryManager.default_options)%Q.
Proof.
  refine (proj1 (proj2 (proj2 (calculateDelay_with_jitter
            RetryManager.default_options RetrySample.half 1 RetryManager.start
            eq_refl _ _ _)))); vm_compute; congruence.
Defined.

(** ** [retryWithBackoff] *)

Lemma total_app l1 l2 :
  (Backoff.total (l1 ++ l2) == Backoff.total l1 + Backoff.total l2)%Q.
Proof.
  unfold Backoff.total. induction l1 as [|x l1 IH]; cbn [foldr app].
  - ring.
  - rewrite IH. ring.
Qed.

Lemma total_doubling (delay : Q) (k : nat) :
  (Backoff.total (Backoff.doubling delay 0 k) == delay * (2 ^ Z.of_nat k - 1))%Q.
Proof.
  unfold Backoff.doubling. induction k as [|k IH].
  - change (0 == delay * (1 - 1))%Q. ring.
  - rewrite seq_S, map_app, total_app, IH. cbn [map Backoff.total foldr Nat.add].
    replace (Z.of_nat (S k)) with (Z.of_nat k + 1)%Z by lia.
    rewrite (Qpower_plus 2 (Z.of_nat k) 1) by discriminate.
    change (2 ^ 1)%Q with 2%Q. ring.
Qed.

Section BackoffFacts.
Import JS Backoff.
Context {R : Type}.
Variable asyncFn : nat -> R + error.
Variable maxRetries : Z.
Variable delay : Q.

#[local] Abbreviation loop := (loop asyncFn maxRetries delay).
#[local] Abbreviation retryWithBackoff := (retryWithBackoff asyncFn maxRetries delay).
#[local] Abbreviation doubling := (Backoff.doubling delay).

(** The loop from the turn [j] on, when the invocations before number
    [k] throw and [k] is the first to return or the last one allowed. *)
Lemma backoff_loop (k : nat) (d : nat) :
  (Z.of_nat k ≤ maxRetries)%Z →
  (∀ i, (i < k)%nat → ∃ e, asyncFn i = inr e) →
  (∃ r, asyncFn k = inl r) ∨ Z.of_nat k = maxRetries →
  ∀ (j : nat) fuel lastError w,
    (j + d = k)%nat → calls w = j → (d < fuel)%nat →
    ∃ w', loop fuel (Z.of_nat j) lastError w
          = Some (match asyncFn k with
                  | inl r => inl r
                  | inr e => inr (Some e)
                  end, w')
          ∧ calls w' = S k
          ∧ waits w' = waits w ++ doubling j d.
Proof.
  intros Hmax Hbefore Hlast.
  induction d as [|d IH]; intros j fuel lastError w Hd Hcalls Hfuel;
    (destruct fuel as [|fuel]; [lia|]); cbn [Backoff.loop];
    rewrite decide_True by lia; rewrite Hcalls.
  - replace j with k in * by lia.
    destruct (asyncFn k) as [r|e] eqn:Hk.
    + eexists. split; [reflexivity|]. cbn. rewrite app_nil_r. split; [lia|reflexivity].
    + destruct Hlast as [[r Hr]|Heq]; [discriminate|].
      rewrite bool_decide_eq_true_2 by exact Heq.
      eexists. split; [reflexivity|]. cbn. rewrite app_nil_r. split; [lia|reflexivity].
  - destruct (Hbefore j) as (e & He); [lia|]. rewrite He.
    rewrite bool_decide_eq_false_2 by lia.
    replace (Z.of_nat j + 1)%Z with (Z.of_nat (S j)) by lia.
    match goal with
    | |- context [loop fuel _ _ ?w1] =>
        destruct (IH (S j) fuel (Some e) w1) as (w' & Hloop & Hc & Hw)
    end; try lia.
    { cbn. lia. }
    exists w'. split; [exact Hloop|]. split; [exact Hc|].
    rewrite Hw. cbn [waits calls]. rewrite <- app_assoc. reflexivity.
Qed.

(** X11: when the first [k] invocations of [asyncFn] throw, whatever the
    errors, and the next one returns [r] with [k] at most [maxRetries],
    [retryWithBackoff] returns [r] after [k + 1] invocations, having waited
    [delay * 2^i] after the failure number [i + 1]: [delay * (2^k - 1)] in
    all. *)
Theorem retryWithBackoff_returns_after_failures (k : nat) r :
  (Z.of_nat k ≤ maxRetries)%Z →
  (∀ i, (i < k)%nat → ∃ e, asyncFn i = inr e) →
  asyncFn k = inl r →
  ∃ w', retryWithBackoff start = Some (inl r, w')
        ∧ calls w' = S k
        ∧ waits w' = map (λ i, (delay * 2 ^ Z.of_nat i)%Q) (seq 0 k)
        ∧ (total (waits w') == delay * (2 ^ Z.of_nat k - 1))%Q.
Proof.
  intros Hmax Hbefore Hk. unfold Backoff.retryWithBackoff.
  destruct (backoff_loop k k Hmax Hbefore (or_introl (ex_intro _ r Hk)) 0%nat
              (S (S (Z.to_nat maxRetries))) None start)
    as (w' & Hloop & Hc & Hw); try lia; try reflexivity.
  rewrite Hk in Hloop. exists w'. split; [exact Hloop|]. split; [exact Hc|].
  cbn [start waits app] in Hw. split; [exact Hw|].
  rewrite Hw. apply total_doubling.
Qed.

(** X12: when [maxRetries] is [n], not negative, and the first [n + 1]
    invocations of [asyncFn] throw, [retryWithBackoff] throws the error of
    the last of them after [n + 1] invocations and [n] waits; with a
    negative [maxRetries] it throws [null] without invoking [asyncFn]. *)
Theorem retryWithBackoff_gives_up (n : nat) e :
  (maxRetries = Z.of_nat n →
   (∀ i, (i < n)%nat → ∃ e', asyncFn i = inr e') →
   asyncFn n = inr e →
   ∃ w', retryWithBackoff start = Some (inr (Some e), w')
         ∧ calls w' = S n
         ∧ length (waits w') = n
         ∧ (total (waits w') == delay * (2 ^ Z.of_nat n - 1))%Q)
  ∧ ((maxRetries < 0)%Z → retryWithBackoff start = Some (inr None, start)).
Proof.
  split.
  - intros Hmax Hbefore Hn. unfold Backoff.retryWithBackoff.
    destruct (backoff_loop n n) with (j := 0%nat)
      (fuel := S (S (Z.to_nat maxRetries))) (lastError := @None error) (w := start)
      as (w' & Hloop & Hc & Hw); try lia; try reflexivity; auto.
    rewrite Hn in Hloop. exists w'. split; [exact Hloop|]. split; [exact Hc|].
    cbn [start waits app] in Hw. rewrite Hw. split.
    + unfold Backoff.doubling. rewrite length_map, length_seq. reflexivity.
    + apply total_doubling.
  - intros Hneg. unfold Backoff.retryWithBackoff. cbn [Backoff.loop].
    rewrite decide_False by lia. reflexivity.
Qed.
End BackoffFacts.

Lemma retryWithBackoff_returns_after_failures_witness :
  ∃ w', Backoff.retryWithBackoff RetrySample2.flaky 3 1000 Backoff.start
        = Some (inl tt, w')
        ∧ Backoff.waits w' = [(1000 * 2 ^ 0)%Q; (1000 * 2 ^ 1)%Q].
Proof.
  destruct (retryWithBackoff_returns_after_failures RetrySample2.flaky 3 1000 2 tt)
    as (w' & Hr & _ & Hw & _).
  - lia.
  - intros i Hi. exists RetrySample.offline.
    destruct i as [|[|i]]; [reflexivity..|lia].
  - reflexivity.
  - exists w'. split; [exact Hr|exact Hw].
Defined.

Lemma retryWithBackoff_gives_up_witness :
  ∃ w', Backoff.retryWithBackoff RetrySample.always_offline 2 1000 Backoff.start
        = Some (inr (Some RetrySample.offline), w')
        ∧ Backoff.calls w' = 3%nat.
Proof.
  destruct (proj1 (retryWithBackoff_gives_up RetrySample.always_offline 2 1000 2
                     RetrySample.offline) eq_refl)
    as (w' & Hr & Hc & _).
  - intros i _. eexists. reflexivity.
  - reflexivity.
  - exists w'. split; [exact Hr|exact Hc].
Defined.

(** ** Classification of errors *)

Section ErrorsFacts.
Import JS Errors.
Context {payload : Type}.

#[local] Abbreviation handleError := (@handleError payload).


Lemma getErrorCodeFromStatus_not_network s :
  getErrorCodeFromStatus s ≠ "NETWORK_ERROR".
Proof.
  unfold getErrorCodeFromStatus. repeat case_decide; discriminate.
Qed.

(** X14: which classified errors the retry manager retries by default.
    An error without a response, be it a network error, a timeout or any
    other error, is always retried; an error with a response is retried
    exactly when its status is 408, 429 or a 5xx. *)
Theorem handled_error_retried_iff (e : @raw_error payload) a :
  handleError (thrown_raw e) = Some a →
  RetryManager.defaultRetryCondition (as_error a) = true
  ↔ match raw_response e with
    | None => True
    | Some r => status r = 408%Z ∨ status r = 429%Z
                ∨ (500 ≤ status r < 600)%Z
    end.
Proof.
  cbn [Errors.handleError]. unfold RetryManager.defaultRetryCondition.
  destruct (raw_response e) as [r|].
  - destruct (data r) as [d|]; [|discriminate]. intros [= <-].
    cbn [as_error new_AppError code statusCode JS.code JS.statusCode].
    rewrite bool_decide_eq_false_2
      by (intros [= H]; exact (getErrorCodeFromStatus_not_network _ H)).
    cbn [orb]. rewrite !orb_true_iff, andb_true_iff, !bool_decide_eq_true.
    split.
    + intros [[H|H]|[H1 H2]]; [left; congruence|right; left; congruence|right; right; lia].
    + intros [H|[H|H]]; [left; left; congruence|left; right; congruence|right; lia].
  - destruct (raw_request e).
    + intros [= <-]. split; [auto|]. intros _. reflexivity.
    + destruct (bool_decide (raw_code e = Some "ECONNABORTED")).
      * intros [= <-]. split; [auto|]. intros _. reflexivity.
      * destruct (raw_message e) as [m|]; [|discriminate].
        destruct (includes "timeout" m); intros [= <-]; (split; [auto|]);
          intros _; reflexivity.
Qed.

(** X15: the message shown for an error with a response is the one of
    [generateUserMessage] for its code; it is the generic "An unexpected
    error occurred." exactly when the status is none of 400, 401, 403, 404,
    408, 500, 502, 503 and 504, so also for 429, whose code has no
    message. *)
Theorem response_error_user_message (e : @raw_error payload) r a :
  raw_response e = Some r →
  handleError (thrown_raw e) = Some a →
  statusCode a = status r
  ∧ code a = getErrorCodeFromStatus (status r)
  ∧ userMessage a = generateUserMessage (code a)
  ∧ (userMessage a = "An unexpected error occurred."
     ↔ status r ∉ [400; 401; 403; 404; 408; 500; 502; 503; 504]%Z).
Proof.
  intros Hr. cbn [Errors.handleError]. rewrite Hr.
  destruct (data r) as [d|]; [|discriminate]. intros [= <-].
  cbn [new_AppError code statusCode userMessage].
  split; [reflexivity|]. split; [reflexivity|]. split; [reflexivity|].
  rewrite !not_elem_of_cons. unfold getErrorCodeFromStatus.
  repeat case_decide; cbn; (split; [intros Hs|intros Hn]);
    try discriminate; try reflexivity; try (exfalso; lia).
  all: repeat split; try lia; apply not_elem_of_nil.
Qed.
End ErrorsFacts.


Lemma handled_error_retried_iff_witness :
  RetryManager.defaultRetryCondition
    (Errors.as_error
       (Errors.new_AppError (payload := unit) (Some "x is not a function")
          (Some "UNKNOWN") (Some 500%Z)
          (Some (Errors.details_original (Some "x is not a function")))))
  = true.
Proof.
  apply (proj2 (handled_error_retried_iff ErrorsSample.type_error _ eq_refl)).
  exact I.
Defined.

Lemma response_error_user_message_witness :
  ∃ a, Errors.handleError (Errors.thrown_raw ErrorsSample.rate_limited)
       = Some a
       ∧ Errors.code a = "RATE_LIMIT_ERROR"
       ∧ Errors.userMessage a = "An unexpected error occurred.".
Proof.
  eexists. split; [reflexivity|].
  destruct (response_error_user_message ErrorsSample.rate_limited _ _ eq_refl eq_refl)
    as (_ & Hc & _ & Hm).
  split; [exact Hc|]. apply Hm. vm_compute. intros H.
  repeat (apply elem_of_cons in H as [H|H]; [discriminate|]).
  apply elem_of_nil in H. exact H.
Defined.

(** ** The error log *)

Section ErrorLogFacts.
Import ErrorLog.
Context {entry : Type}.
Variable stringify : list entry -> string.
Variable parse : string -> option (list entry).
Variable accepts : string -> bool.

#[local] Abbreviation logError := (logError stringify accepts).
#[local] Abbreviation logAll := (logAll stringify accepts).
#[local] Abbreviation loadErrorLog := (loadErrorLog parse).

Lemma logError_log e (h : @handler entry) ls :
  errorLog (logError e h ls).1 = take (maxLogSize h) (e :: errorLog h)
  ∧ maxLogSize (logError e h ls).1 = maxLogSize h.
Proof.
  unfold ErrorLog.logError. cbn [fst ErrorLog.errorLog ErrorLog.maxLogSize]. split; [|reflexivity].
  destruct (maxLogSize h <? length (e :: errorLog h))%nat eqn:Hlt; [reflexivity|].
  apply Nat.ltb_ge in Hlt. rewrite take_ge by exact Hlt. reflexivity.
Qed.

Lemma logAll_snoc es e (h : @handler entry) ls :
  logAll (es ++ [e]) h ls = logError e (logAll es h ls).1 (logAll es h ls).2.
Proof. unfold ErrorLog.logAll. rewrite foldl_app. reflexivity. Qed.

Lemma logAll_log es (h : @handler entry) ls :
  (length (errorLog h) ≤ maxLogSize h)%nat →
  errorLog (logAll es h ls).1 = take (maxLogSize h) (rev es ++ errorLog h)
  ∧ maxLogSize (logAll es h ls).1 = maxLogSize h.
Proof.
  intros Hlen. induction es as [|e es IH] using rev_ind.
  - cbn. rewrite take_ge by exact Hlen. split; reflexivity.
  - rewrite logAll_snoc. destruct IH as [IHlog IHmax].
    destruct (logError_log e (logAll es h ls).1 (logAll es h ls).2) as [-> ->].
    rewrite IHlog, IHmax, rev_unit. split; [|reflexivity].
    destruct (maxLogSize h) as [|m]; [reflexivity|]. cbn [take app].
    rewrite take_take. f_equal. f_equal. lia.
Qed.

(** X16: the log keeps the newest entries first and never more than
    [maxLogSize]: after the entries [es] have been logged on a new handler,
    [errorLog] is the last 100 of them, newest first. *)
Theorem errorLog_keeps_newest_100 es ls :
  getErrorLog (logAll es new ls).1 = take 100 (rev es)
  ∧ (length (getErrorLog (logAll es new ls).1) ≤ 100)%nat.
Proof.
  unfold getErrorLog. destruct (logAll_log es new ls) as [-> _]; [cbn; lia|].
  cbn [new ErrorLog.maxLogSize ErrorLog.errorLog]. rewrite app_nil_r. split; [reflexivity|].
  rewrite length_take. lia.
Qed.

(** X17: what a reload finds.  When [localStorage] takes the value and
    [JSON.parse] gives back what [JSON.stringify] was given, after a call
    of [logError] [loadErrorLog()] returns the 50 newest entries of the
    log; when [localStorage] refuses the value, it keeps what it had. *)
Theorem loadErrorLog_after_logError e (h : @handler entry) ls :
  (∀ log, parse (stringify log) = Some log ∧ stringify log ≠ "") →
  (accepts (stringify (take 50 (errorLog (logError e h ls).1))) = true →
   loadErrorLog (logError e h ls).2 = take 50 (errorLog (logError e h ls).1))
  ∧ (accepts (stringify (take 50 (errorLog (logError e h ls).1))) = false →
     (logError e h ls).2 = ls).
Proof.
  intros Hjson. unfold ErrorLog.logError, storeErrorLog. cbn [fst snd ErrorLog.errorLog].
  set (log := if (maxLogSize h <? length (e :: errorLog h))%nat
              then take (maxLogSize h) (e :: errorLog h) else e :: errorLog h).
  split; intros Hacc; rewrite Hacc; [|reflexivity].
  unfold ErrorLog.loadErrorLog. rewrite lookup_insert_eq.
  destruct (Hjson (take 50 log)) as [Hparse Hne].
  rewrite Hparse. apply String.eqb_neq in Hne. rewrite Hne. reflexivity.
Qed.

(** X18: [loadErrorLog()] after [clearErrorLog()] is empty, and so is it
    when the stored text does not parse. *)
Theorem loadErrorLog_empty (h : @handler entry) ls stored :
  loadErrorLog (clearErrorLog h ls).2 = []
  ∧ errorLog (clearErrorLog h ls).1 = []
  ∧ (parse stored = None →
     loadErrorLog (<["app_error_log" := stored]> ls) = []).
Proof.
  unfold ErrorLog.loadErrorLog, clearErrorLog. cbn [fst snd ErrorLog.errorLog].
  rewrite lookup_delete_eq, lookup_insert_eq. repeat split.
  intros ->. destruct (stored =? ""); reflexivity.
Qed.
End ErrorLogFacts.

(** ** The URLs of the base service *)

Lemma prefix_slash s : String.prefix "/" ("/" +:+ s) = true.
Proof. cbn. destruct s; reflexivity. Qed.

Lemma append_empty s : s +:+ "" = s.
Proof.
  induction s as [|c s IH]; [reflexivity|].
  change (String c (s +:+ "") = String c s). f_equal. exact IH.
Qed.

(** X19: the URL of a request for one item ([getById], [update], [patch],
    [delete]) is "/" followed by the id, whatever the endpoint of the
    service: [buildUrl] leaves a path that starts with "/" as it is.  The
    URL of [getAll] and of [create] is the endpoint, and a path that does
    not start with "/" is appended to the endpoint after a "/". *)
Theorem item_url_ignores_endpoint endpoint id path :
  Service.requestUrl endpoint (Service.getById id) = "/" +:+ id
  ∧ Service.requestUrl endpoint (Service.update id) = "/" +:+ id
  ∧ Service.requestUrl endpoint (Service.patch id) = "/" +:+ id
  ∧ Service.requestUrl endpoint (Service.delete id) = "/" +:+ id
  ∧ Service.requestUrl endpoint Service.getAll = endpoint
  ∧ Service.requestUrl endpoint Service.create = endpoint
  ∧ (String.prefix "/" path = false → path ≠ "" →
     Service.buildUrl endpoint (Some path) = endpoint +:+ "/" +:+ path).
Proof.
  unfold Service.requestUrl, Service.buildUrl. cbn [Service.url Service.getById
    Service.update Service.patch Service.delete Service.getAll Service.create].
  rewrite !prefix_slash. repeat split.
  - change (String.prefix "/" "") with false. cbn [String.eqb].
    rewrite !append_empty. reflexivity.
  - change (String.prefix "/" "") with false. cbn [String.eqb].
    rewrite !append_empty. reflexivity.
  - intros Hp Hne. rewrite Hp. apply String.eqb_neq in Hne. rewrite Hne. reflexivity.
Qed.

(** ** More on the bulk product form *)

Section FormMore.
Import JS BulkForm Rules FormUI.
Variable number_to_string : Q -> string.
Variable string_to_number : string -> option Q.
Variable fields : list field.
Variable server : list (gmap string value) -> gmap string value -> api_outcome.

#[local] Abbreviation validateProduct :=
  (validateProduct number_to_string string_to_number fields).
#[local] Abbreviation hasValidationErrors :=
  (hasValidationErrors number_to_string string_to_number fields).
#[local] Abbreviation collectErrors :=
  (collectErrors number_to_string string_to_number fields).
#[local] Abbreviation validateAll :=
  (validateAll number_to_string string_to_number fields).
#[local] Abbreviation getFieldError :=
  (getFieldError number_to_string string_to_number fields).
#[local] Abbreviation createAllProducts :=
  (createAllProducts number_to_string string_to_number fields server).
#[local] Abbreviation id_key := (id_key number_to_string).

Lemma append_not_empty s t : t ≠ "" → s +:+ t ≠ "".
Proof. destruct s; [intros H; exact H | discriminate]. Qed.

Lemma kept_message_not_empty f v m :
  kept_message number_to_string string_to_number f v = Some m → m ≠ "".
Proof.
  unfold kept_message, required_message, type_rules, failing.
  destruct (required_fails f v).
  - intros [= <-]. apply append_not_empty. discriminate.
  - destruct (type f =? "text").
    { rewrite !filter_cons, filter_nil. cbn [fst snd].
      repeat case_decide; cbn; intros [= <-]; discriminate. }
    destruct (type f =? "number").
    { destruct (negb _ && negb _); [|discriminate].
      destruct (min f) as [mn|]; cbn [app];
        rewrite !filter_cons, filter_nil; cbn [fst snd];
        repeat case_decide; cbn; intros [= <-]; discriminate. }
    destruct (type f =? "email"); [|discriminate].
    rewrite !filter_cons, filter_nil. cbn [fst snd].
    repeat case_decide; cbn; intros [= <-]; discriminate.
Qed.

Lemma validateProduct_message_not_empty product k m :
  validateProduct product !! k = Some m → m ≠ "".
Proof.
  unfold BulkForm.validateProduct.
  assert (∀ errors : gmap string string,
            (∀ k m, errors !! k = Some m → m ≠ "") →
            ∀ k m, foldl (validateField number_to_string string_to_number product)
                     errors fields !! k = Some m → m ≠ "") as H.
  { induction fields as [|f fs IH]; intros errors Herr; [exact Herr|].
    cbn [foldl]. apply IH. intros k' m'. rewrite validateField_lookup.
    destruct (decide (key f = k')); [|apply Herr].
    destruct (kept_message _ _ f _) as [m0|] eqn:Hk; cbn.
    - intros [= <-]. eapply kept_message_not_empty, Hk.
    - apply Herr. }
  apply H. intros k' m'. rewrite lookup_empty. discriminate.
Qed.

(** The message that [getFieldError] reads off an entry. *)
Lemma field_of_entry (errors : gmap string string) k :
  (∀ m, errors !! k = Some m → m ≠ "") →
  match errors !! k with
  | Some m => if m =? "" then None else Some m
  | None => None
  end = errors !! k.
Proof.
  intros H. destruct (errors !! k) as [m|]; [|reflexivity].
  specialize (H m eq_refl). apply String.eqb_neq in H. rewrite H. reflexivity.
Qed.

Lemma getFieldError_stored product k st errors :
  validationErrors st !! id_key product = Some errors →
  getFieldError product k st
  = (match errors !! k with
     | Some m => if m =? "" then None else Some m
     | None => None
     end, st).
Proof.
  intros H. unfold BulkForm.getFieldError. cbn zeta. rewrite H. cbn. rewrite H.
  reflexivity.
Qed.

Lemma getFieldError_fresh product k st :
  validationErrors st !! id_key product = None →
  (getFieldError product k st).1 = validateProduct product !! k
  ∧ (getFieldError product k st).2
    = if has_keys (validateProduct product)
      then set_validationErrors
             (<[id_key product := validateProduct product]> (validationErrors st)) st
      else st.
Proof.
  intros H. unfold BulkForm.getFieldError. cbn zeta. rewrite H.
  destruct (has_keys (validateProduct product)) eqn:Hk; cbn [fst snd].
  - cbn [validationErrors set_validationErrors]. rewrite lookup_insert_eq. cbn.
    split; [|reflexivity].
    apply field_of_entry. intros m. apply validateProduct_message_not_empty.
  - rewrite H. cbn. split; [|reflexivity].
    apply has_keys_false in Hk. rewrite Hk, lookup_empty. reflexivity.
Qed.

(** X20: a query of a field error for a row that has no stored entry
    returns the message that validation gives now; it stores the errors of
    the row when there are some; and the same query made again returns the
    same message and changes nothing. *)
Theorem getFieldError_first_query product k st :
  validationErrors st !! id_key product = None →
  (getFieldError product k st).1 = validateProduct product !! k
  ∧ (validateProduct product = ∅ → (getFieldError product k st).2 = st)
  ∧ getFieldError product k (getFieldError product k st).2
    = getFieldError product k st.
Proof.
  intros H. destruct (getFieldError_fresh product k st H) as [Hm Hst].
  split; [exact Hm|]. split.
  - intros Hv. rewrite Hst, Hv. reflexivity.
  - destruct (has_keys (validateProduct product)) eqn:Hk.
    + rewrite (surjective_pairing (getFieldError product k st)) at 2.
      rewrite Hm, Hst.
      rewrite (getFieldError_stored product k _ (validateProduct product))
        by (cbn; apply lookup_insert_eq).
      rewrite field_of_entry
        by (intros m; apply validateProduct_message_not_empty).
      reflexivity.
    + rewrite Hst. reflexivity.
Qed.
Lemma collect_other (acc : gmap string (gmap string string)) ps id :
  id ∉ map id_key ps →
  foldl (λ acc product,
           let errors := validateProduct product in
           if has_keys errors then <[id_key product := errors]> acc else acc)
        acc ps !! id = acc !! id.
Proof.
  revert acc. induction ps as [|p ps IH]; intros acc Hid; [reflexivity|].
  cbn [map] in Hid. apply not_elem_of_cons in Hid as [Hne Hid].
  cbn [foldl]. rewrite IH by exact Hid. cbn zeta.
  destruct (has_keys (validateProduct p)); [|reflexivity].
  apply lookup_insert_ne. congruence.
Qed.

Lemma collect_row (acc : gmap string (gmap string string)) ps p :
  NoDup (map id_key ps) → p ∈ ps →
  foldl (λ acc product,
           let errors := validateProduct product in
           if has_keys errors then <[id_key product := errors]> acc else acc)
        acc ps !! id_key p
  = if has_keys (validateProduct p) then Some (validateProduct p)
    else acc !! id_key p.
Proof.
  revert acc. induction ps as [|q ps IH]; intros acc Hnd Hin.
  - apply elem_of_nil in Hin. contradiction.
  - cbn [map] in Hnd. apply NoDup_cons in Hnd as [Hq Hnd]. cbn [foldl].
    apply elem_of_cons in Hin as [->|Hin].
    + rewrite collect_other by exact Hq. cbn zeta.
      destruct (has_keys (validateProduct q)); [apply lookup_insert_eq|reflexivity].
    + rewrite IH by assumption.
      destruct (has_keys (validateProduct p)); [reflexivity|]. cbn zeta.
      destruct (has_keys (validateProduct q)); [|reflexivity].
      apply lookup_insert_ne. intros Heq. apply Hq. rewrite Heq.
      apply list_elem_of_fmap. eauto.
Qed.

(** X21: "Validate All" brings the stored errors up to date.  When the
    rows have distinct ids, after [validateAll] the entry stored for a row
    is its error map of now, or none when it has no error, ids of no row
    have no entry, and a query of a field error for any row returns the
    message that validation gives now and changes nothing. *)
Theorem validateAll_refreshes_errors st p k :
  NoDup (map id_key (manualProducts st)) → p ∈ manualProducts st →
  validationErrors (validateAll st).2 !! id_key p
  = (if has_keys (validateProduct p) then Some (validateProduct p) else None)
  ∧ (∀ id, id ∉ map id_key (manualProducts st) →
           validationErrors (validateAll st).2 !! id = None)
  ∧ getFieldError p k (validateAll st).2
    = (validateProduct p !! k, (validateAll st).2).
Proof.
  intros Hnd Hin.
  assert (validationErrors (validateAll st).2 !! id_key p
          = if has_keys (validateProduct p) then Some (validateProduct p) else None)
    as Hrow.
  { cbn. unfold BulkForm.collectErrors. rewrite collect_row by assumption.
    rewrite lookup_empty. reflexivity. }
  split; [exact Hrow|]. split.
  - intros id Hid. cbn. unfold BulkForm.collectErrors.
    rewrite collect_other by exact Hid. apply lookup_empty.
  - destruct (has_keys (validateProduct p)) eqn:Hk.
    + rewrite (getFieldError_stored p k _ _ Hrow).
      rewrite field_of_entry
        by (intros m; apply validateProduct_message_not_empty).
      reflexivity.
    + destruct (getFieldError_fresh p k _ Hrow) as [Hm Hst].
      rewrite (surjective_pairing (getFieldError p k (validateAll st).2)).
      rewrite Hm, Hst, Hk. reflexivity.
Qed.

Lemma button_and_gate_agree_aux st :
  hasAnyValidationErrors number_to_string string_to_number fields st
  = negb (validateAll st).1.
Proof.
  apply eq_true_iff_eq. rewrite negb_true_iff.
  unfold BulkForm.hasAnyValidationErrors. rewrite existsb_exists.
  rewrite <- not_true_iff_false.
  rewrite (validateAll_true number_to_string string_to_number fields server st).
  rewrite Forall_forall. split.
  - intros (p & Hin & Hp) Hall.
    apply list_elem_of_In in Hin. specialize (Hall p Hin).
    unfold BulkForm.hasValidationErrors in Hp. rewrite Hall in Hp. discriminate.
  - intros Hnot.
    destruct (existsb hasValidationErrors (manualProducts st)) eqn:Hex.
    + apply existsb_exists in Hex. exact Hex.
    + exfalso. apply Hnot. intros p Hin. apply has_keys_false.
      apply not_true_iff_false. intros Hp.
      apply not_true_iff_false in Hex. apply Hex. apply existsb_exists.
      exists p. split; [apply list_elem_of_In; exact Hin|exact Hp].
Qed.

(** X22: the condition that disables "Create All Products" and the check
    that [createAllProducts] makes agree: [hasAnyValidationErrors] holds
    exactly when [validateAll] returns [false], and then
    [createAllProducts] posts nothing. *)
Theorem button_and_gate_agree st w :
  hasAnyValidationErrors number_to_string string_to_number fields st
  = negb (validateAll st).1
  ∧ (hasAnyValidationErrors number_to_string string_to_number fields st = true →
     (createAllProducts st w).2 = w).
Proof.
  split; [apply button_and_gate_agree_aux|].
  rewrite button_and_gate_agree_aux, negb_true_iff. intros Hinvalid.
  rewrite createAllProducts_invalid by exact Hinvalid. reflexivity.
Qed.
Lemma manual_inj x y : "manual_" +:+ x = "manual_" +:+ y → x = y.
Proof. intros H. injection H as H. exact H. Qed.

Lemma issued_mono c c' id : issued c id → (c ≤ c')%nat → issued c' id.
Proof. intros (k & Hk & ->) Hle. exists k. split; [lia|reflexivity]. Qed.

Lemma id_key_of (p : gmap string value) id :
  p !! "id" = Some (str id) → id_key p = id.
Proof. intros H. unfold BulkForm.id_key, get. rewrite H. reflexivity. Qed.

Lemma emptyField_id (p : gmap string value) f :
  key f ≠ "id" → emptyField p f !! "id" = p !! "id".
Proof.
  intros Hne. unfold emptyField.
  destruct (type f =? "checkbox"); [apply lookup_insert_ne; exact Hne|].
  destruct (type f =? "number"); apply lookup_insert_ne; exact Hne.
Qed.

Lemma emptyFields_id (p : gmap string value) fs :
  "id" ∉ map key fs → foldl emptyField p fs !! "id" = p !! "id".
Proof.
  revert p. induction fs as [|f fs IH]; intros p Hid; [reflexivity|].
  cbn [map] in Hid. apply not_elem_of_cons in Hid as [Hne Hid].
  cbn [foldl]. rewrite IH by exact Hid. apply emptyField_id. congruence.
Qed.

(** The row that [addEmptyProduct] appends. *)
Lemma addEmptyProduct_row st :
  "id" ∉ map key fields →
  ∃ p, manualProducts (addEmptyProduct fields st) = manualProducts st ++ [p]
       ∧ p !! "id" = Some (str ("manual_" +:+ pretty (S (productIdCounter st))))
       ∧ p = foldl emptyField
               {[ "id" := str ("manual_" +:+ pretty (S (productIdCounter st))) ]}
               fields.
Proof.
  intros Hid. eexists. split; [reflexivity|]. split; [|reflexivity].
  rewrite emptyFields_id by exact Hid. apply lookup_singleton_eq.
Qed.

Lemma collect_keys ps id :
  is_Some (collectErrors ps !! id) → id ∈ map id_key ps.
Proof.
  intros [e He]. destruct (decide (id ∈ map id_key ps)) as [Hin|Hout]; [exact Hin|].
  unfold BulkForm.collectErrors in He. rewrite collect_other in He by exact Hout.
  rewrite lookup_empty in He. discriminate.
Qed.

Lemma createLoop_counter i ps st w :
  productIdCounter (createLoop server i ps st w).1 = productIdCounter st.
Proof.
  revert i st w. induction ps as [|p ps IH]; intros i st w; [reflexivity|].
  cbn [BulkForm.createLoop]. unfold createOne, apiRequest. rewrite IH. reflexivity.
Qed.

Lemma issued_row_in_use st id :
  Forall (λ p, ∃ id, p !! "id" = Some (str id) ∧ issued (productIdCounter st) id)
         (manualProducts st) →
  id ∈ map id_key (manualProducts st) → issued (productIdCounter st) id.
Proof.
  intros Hall Hin. apply list_elem_of_fmap in Hin as (p & -> & Hp).
  rewrite Forall_forall in Hall. destruct (Hall p Hp) as (id & Hid & Hiss).
  rewrite (id_key_of p id Hid). exact Hiss.
Qed.

Lemma validateAll_ids st :
  ids_in_order number_to_string st →
  ids_in_order number_to_string (validateAll st).2.
Proof.
  intros (Hnd & Hall & Hve). split; [exact Hnd|]. split; [exact Hall|].
  intros id Hsome. cbn in Hsome. apply collect_keys in Hsome.
  exact (issued_row_in_use st id Hall Hsome).
Qed.

Lemma reachable_ids st :
  "id" ∉ map key fields →
  reachable number_to_string string_to_number fields server st →
  ids_in_order number_to_string st.
Proof.
  intros Hid Hreach.
  induction Hreach as [|st _ IH|st i st' _ IH Hrm|st i f v _ IH Hf|st _ IH
                       |st i p k _ IH Hp|st w _ IH|st pid _ IH].
  - split; [constructor|]. split; [constructor|].
    intros id [e He]. cbn in He. rewrite lookup_empty in He. discriminate.
  - destruct IH as (Hnd & Hall & Hve).
    destruct (addEmptyProduct_row st Hid) as (p & Hrows & Hpid & _).
    unfold ids_in_order. rewrite Hrows.
    change (productIdCounter (addEmptyProduct fields st))
      with (S (productIdCounter st)).
    change (validationErrors (addEmptyProduct fields st))
      with (validationErrors st).
    split; [|split].
    + rewrite map_app. cbn [map]. rewrite (id_key_of p _ Hpid).
      apply NoDup_app. split; [exact Hnd|]. split; [|apply NoDup_singleton].
      intros id Hin Hnew. apply list_elem_of_singleton in Hnew. subst id.
      destruct (issued_row_in_use st _ Hall Hin) as (k & Hk & Heq).
      apply manual_inj in Heq. apply (inj pretty) in Heq. lia.
    + apply Forall_app. split.
      * eapply Forall_impl; [exact Hall|]. intros q (id & Hq & Hiss).
        exists id. split; [exact Hq|]. eapply issued_mono; [exact Hiss|lia].
      * constructor; [|constructor]. eexists. split; [exact Hpid|].
        exists (S (productIdCounter st)). split; [lia|reflexivity].
    + intros id Hsome. eapply issued_mono; [apply Hve; exact Hsome|lia].
  - destruct IH as (Hnd & Hall & Hve). unfold removeProduct in Hrm.
    destruct (manualProducts st !! i) as [p|]; [|discriminate].
    injection Hrm as <-. split; [|split]; cbn.
    + apply (sublist_NoDup _ (map id_key (manualProducts st))); [exact Hnd|].
      apply fmap_sublist, sublist_delete.
    + apply Forall_delete. exact Hall.
    + intros id [e He]. apply lookup_delete_Some in He as [_ He].
      apply Hve. eexists. exact He.
  - destruct IH as (Hnd & Hall & Hve). unfold editField.
    destruct (manualProducts st !! i) as [p|] eqn:Hp; [|repeat split; assumption].
    assert (key f ≠ "id") as Hne.
    { intros Heq. apply Hid. rewrite <- Heq. apply list_elem_of_fmap. eauto. }
    assert ((<[key f := v]> p : gmap string value) !! "id" = p !! "id") as Hsame
      by (apply lookup_insert_ne; exact Hne).
    split; [|split]; cbn.
    + rewrite list_fmap_insert.
      replace (id_key (<[key f := v]> p)) with (id_key p)
        by (unfold BulkForm.id_key, get; rewrite Hsame; reflexivity).
      rewrite list_insert_id; [exact Hnd|]. rewrite list_lookup_fmap, Hp. reflexivity.
    + apply Forall_insert; [exact Hall|]. rewrite Hsame.
      rewrite Forall_forall in Hall. apply Hall.
      eapply list_elem_of_lookup_2. exact Hp.
    + exact Hve.
  - apply validateAll_ids. exact IH.
  - destruct IH as (Hnd & Hall & Hve).
    assert (p ∈ manualProducts st) as Hin by (eapply list_elem_of_lookup_2; exact Hp).
    destruct (validationErrors st !! id_key p) as [e|] eqn:Hentry.
    + rewrite (getFieldError_stored p k st e Hentry). repeat split; assumption.
    + destruct (getFieldError_fresh p k st Hentry) as [_ ->].
      destruct (has_keys (validateProduct p)); [|repeat split; assumption].
      split; [exact Hnd|]. split; [exact Hall|]. cbn.
      intros id [e He]. destruct (decide (id = id_key p)) as [->|Hne].
      * apply (issued_row_in_use st _ Hall). apply list_elem_of_fmap. eauto.
      * rewrite lookup_insert_ne in He by congruence. apply Hve. eexists. exact He.
  - destruct (validateAll st).1 eqn:Hvalid.
    + rewrite createAllProducts_valid by exact Hvalid. cbv zeta.
      destruct (failCount _ =? 0)%Z; cbn [fst snd].
      * split; [constructor|]. split; [constructor|].
        intros id [e He]. cbn in He. rewrite lookup_empty in He. discriminate.
      * destruct (createLoop_spec server (manualProducts st) 0
                    (startCreating (validateAll st).2) w)
          as (rs & _ & _ & _ & _ & _ & _ & Hrows & Hverr).
        pose proof (createLoop_counter 0 (manualProducts st)
                      (startCreating (validateAll st).2) w) as Hcnt.
        destruct (validateAll_ids st IH) as (Hnd & Hall & Hve).
        unfold ids_in_order. cbn [manualProducts validationErrors
          productIdCounter set_creating].
        rewrite Hrows, Hverr, Hcnt. repeat split; assumption.
    + rewrite createAllProducts_invalid by exact Hvalid. cbn [fst snd].
      apply validateAll_ids. exact IH.
  - exact IH.
Qed.

(** X23: the rows of the form always have distinct ids.  For a schema
    without a field named "id", in every state that the form can reach the
    ids of the rows are pairwise distinct, each is one that
    [addEmptyProduct] handed out, and no id in use exceeds the counter. *)
Theorem row_ids_are_distinct st :
  "id" ∉ map key fields →
  reachable number_to_string string_to_number fields server st →
  NoDup (map id_key (manualProducts st))
  ∧ Forall (λ p, ∃ k : nat, (1 ≤ k ≤ productIdCounter st)%nat
                            ∧ get p "id" = str ("manual_" +:+ pretty k))
           (manualProducts st).
Proof.
  intros Hid Hreach. destruct (reachable_ids st Hid Hreach) as (Hnd & Hall & _).
  split; [exact Hnd|]. eapply Forall_impl; [exact Hall|].
  intros p (id & Hp & k & Hk & ->). exists k. split; [exact Hk|].
  unfold get. rewrite Hp. reflexivity.
Qed.

(** X24: a row that is added never inherits the errors of a row that was
    removed: in every state that the form can reach, the row appended by
    [addEmptyProduct] has an id that no row has and for which no errors are
    stored, so a query of a field error for it returns the message that
    validation gives for the new row. *)
Theorem new_row_has_no_stored_errors st k :
  "id" ∉ map key fields →
  reachable number_to_string string_to_number fields server st →
  ∃ p, manualProducts (addEmptyProduct fields st) = manualProducts st ++ [p]
       ∧ (id_key p ∉ map id_key (manualProducts st))
       ∧ validationErrors (addEmptyProduct fields st) !! id_key p = None
       ∧ (getFieldError p k (addEmptyProduct fields st)).1
         = validateProduct p !! k.
Proof.
  intros Hid Hreach. destruct (reachable_ids st Hid Hreach) as (Hnd & Hall & Hve).
  destruct (addEmptyProduct_row st Hid) as (p & Hrows & Hpid & _).
  exists p. split; [exact Hrows|]. rewrite (id_key_of p _ Hpid).
  assert (¬ issued (productIdCounter st)
            ("manual_" +:+ pretty (S (productIdCounter st)))) as Hnew.
  { intros (j & Hj & Heq). apply manual_inj in Heq. apply (inj pretty) in Heq. lia. }
  assert (validationErrors (addEmptyProduct fields st)
          !! ("manual_" +:+ pretty (S (productIdCounter st))) = None) as Hnone.
  { change (validationErrors (addEmptyProduct fields st)) with (validationErrors st).
    destruct (validationErrors st !! _) as [e|] eqn:He; [|reflexivity].
    exfalso. apply Hnew, Hve. eexists. exact He. }
  split; [|split; [exact Hnone|]].
  - intros Hin. apply Hnew. exact (issued_row_in_use st _ Hall Hin).
  - apply getFieldError_fresh. rewrite (id_key_of p _ Hpid). exact Hnone.
Qed.


Lemma emptyFields_other (p : gmap string value) fs k :
  k ∉ map key fs → foldl emptyField p fs !! k = p !! k.
Proof.
  revert p. induction fs as [|f fs IH]; intros p Hk; [reflexivity|].
  cbn [map] in Hk. apply not_elem_of_cons in Hk as [Hne Hk].
  cbn [foldl]. rewrite IH by exact Hk. unfold emptyField.
  destruct (type f =? "checkbox"); [apply lookup_insert_ne; congruence|].
  destruct (type f =? "number"); apply lookup_insert_ne; congruence.
Qed.

Lemma emptyFields_text (p : gmap string value) fs f :
  NoDup (map key fs) → f ∈ fs →
  (type f =? "checkbox") = false → (type f =? "number") = false →
  foldl emptyField p fs !! key f = Some (str "").
Proof.
  revert p. induction fs as [|g fs IH]; intros p Hnd Hin Hc Hn.
  - apply elem_of_nil in Hin. contradiction.
  - cbn [map] in Hnd. apply NoDup_cons in Hnd as [Hg Hnd]. cbn [foldl].
    apply elem_of_cons in Hin as [->|Hin].
    + rewrite emptyFields_other by exact Hg. unfold emptyField.
      rewrite Hc, Hn. apply lookup_insert_eq.
    + apply IH; assumption.
Qed.

(** X26: a row that has just been added blocks "Create All Products".
    For a schema with distinct keys, none of them "id", that has a required
    field which is neither a number nor a checkbox, the row appended by
    [addEmptyProduct] fails validation, so [createAllProducts] on the form
    with the new row posts nothing and asks to fix the errors. *)
Theorem new_row_blocks_creation st w f :
  NoDup (map key fields) → "id" ∉ map key fields →
  f ∈ fields → required f = true →
  (type f =? "checkbox") = false → (type f =? "number") = false →
  hasAnyValidationErrors number_to_string string_to_number fields
    (addEmptyProduct fields st) = true
  ∧ createAllProducts (addEmptyProduct fields st) w
    = (["Please fix validation errors before creating products"],
       (validateAll (addEmptyProduct fields st)).2, w).
Proof.
  intros Hnd Hid Hf Hreq Hc Hn.
  destruct (addEmptyProduct_row st Hid) as (p & Hrows & _ & Hp).
  assert (validateProduct p !! key f = Some (required_message f)) as Hmsg.
  { rewrite (validateProduct_lookup number_to_string string_to_number fields p f Hnd Hf).
    unfold kept_message, required_fails, get.
    rewrite Hp, (emptyFields_text _ fields f Hnd Hf Hc Hn), Hreq. reflexivity. }
  assert ((validateAll (addEmptyProduct fields st)).1 = false) as Hinvalid.
  { apply not_true_iff_false. intros Hvalid.
    apply (validateAll_true number_to_string string_to_number fields server) in Hvalid.
    rewrite Hrows, Forall_app, Forall_singleton in Hvalid.
    destruct Hvalid as [_ Hempty]. rewrite Hempty, lookup_empty in Hmsg.
    discriminate. }
  split.
  - rewrite button_and_gate_agree_aux, Hinvalid. reflexivity.
  - apply createAllProducts_invalid. exact Hinvalid.
Qed.

(** X27: the eye button.  [togglePasswordVisibility] of a row inverts
    whether its password is shown, leaves the other rows as they are, and
    applied twice it shows what was shown before. *)
Theorem togglePasswordVisibility_twice st id other :
  passwordShown id (togglePasswordVisibility id st) = negb (passwordShown id st)
  ∧ passwordShown id (togglePasswordVisibility id (togglePasswordVisibility id st))
    = passwordShown id st
  ∧ (other ≠ id →
     passwordShown other (togglePasswordVisibility id st) = passwordShown other st).
Proof.
  unfold passwordShown, togglePasswordVisibility. cbn [showPasswords].
  rewrite !lookup_insert_eq. split; [reflexivity|].
  split; [apply negb_involutive|].
  intros Hne. rewrite lookup_insert_ne by congruence. reflexivity.
Qed.



(** X29: the remove button.  [removeProduct] of an index that has a row
    takes that row out of the form, forgets the errors stored for it and
    leaves the errors stored for other ids and the counter of ids as they
    are; for an index without a row it throws and nothing changes. *)
Theorem removeProduct_row st i :
  (∀ p, manualProducts st !! i = Some p →
        ∃ st', removeProduct number_to_string i st = Some st'
               ∧ manualProducts st' = delete i (manualProducts st)
               ∧ S (length (manualProducts st')) = length (manualProducts st)
               ∧ validationErrors st' !! id_key p = None
               ∧ (∀ id, id ≠ id_key p →
                        validationErrors st' !! id = validationErrors st !! id)
               ∧ productIdCounter st' = productIdCounter st)
  ∧ ((length (manualProducts st) ≤ i)%nat →
     removeProduct number_to_string i st = None).
Proof.
  unfold removeProduct. split.
  - intros p Hp. rewrite Hp. eexists. split; [reflexivity|].
    cbn [manualProducts validationErrors productIdCounter set_manualProducts
         set_validationErrors].
    split; [reflexivity|]. split.
    + rewrite length_delete by (eexists; exact Hp).
      apply lookup_lt_Some in Hp. lia.
    + split; [apply lookup_delete_eq|]. split; [|reflexivity].
      intros id Hne. apply lookup_delete_ne. congruence.
  - intros Hout. rewrite lookup_ge_None_2 by exact Hout. reflexivity.
Qed.
End FormMore.

Lemma formFields_no_id : "id" ∉ map BulkForm.key BulkForm.formFields.
Proof.
  exact (bool_decide_unpack ("id" ∉ map BulkForm.key BulkForm.formFields) I).
Defined.

Lemma getFieldError_first_query_witness :
  BulkForm.validationErrors BulkForm.initial
  !! BulkForm.id_key Sample.number_to_string Sample.nameless = None
  ∧ (BulkForm.getFieldError Sample.number_to_string Sample.string_to_number
       BulkForm.formFields Sample.nameless "name" BulkForm.initial).1
    = Some "Name is required".
Proof.
  split; [reflexivity|].
  rewrite (proj1 (getFieldError_first_query Sample.number_to_string
                    Sample.string_to_number BulkForm.formFields
                    Sample.nameless "name" BulkForm.initial eq_refl)).
  vm_compute. reflexivity.
Defined.

Lemma two_widgets_distinct :
  NoDup (map (BulkForm.id_key Sample.number_to_string)
           (BulkForm.manualProducts Sample.two_widgets)).
Proof.
  exact (bool_decide_unpack
           (NoDup (map (BulkForm.id_key Sample.number_to_string)
                     (BulkForm.manualProducts Sample.two_widgets))) I).
Defined.

Lemma validateAll_refreshes_errors_witness :
  NoDup (map (BulkForm.id_key Sample.number_to_string)
           (BulkForm.manualProducts Sample.two_widgets))
  ∧ Sample.widget ∈ BulkForm.manualProducts Sample.two_widgets
  ∧ (BulkForm.getFieldError Sample.number_to_string Sample.string_to_number
       BulkForm.formFields Sample.widget "name"
       (BulkForm.validateAll Sample.number_to_string Sample.string_to_number
          BulkForm.formFields Sample.two_widgets).2).1
    = None.
Proof.
  assert (Sample.widget ∈ BulkForm.manualProducts Sample.two_widgets) as Hin
    by (apply list_elem_of_In; cbn; tauto).
  split; [exact two_widgets_distinct|]. split; [exact Hin|].
  destruct (validateAll_refreshes_errors Sample.number_to_string
              Sample.string_to_number BulkForm.formFields Sample.two_widgets
              Sample.widget "name" two_widgets_distinct Hin) as (_ & _ & ->).
  vm_compute. reflexivity.
Defined.

Lemma button_and_gate_agree_witness :
  BulkForm.hasAnyValidationErrors Sample.number_to_string Sample.string_to_number
    BulkForm.formFields FormSample.one_new_row = true
  ∧ (BulkForm.createAllProducts Sample.number_to_string Sample.string_to_number
       BulkForm.formFields FormSample.always_ok FormSample.one_new_row
       FormSample.nothing_posted).2
    = FormSample.nothing_posted.
Proof.
  assert (BulkForm.hasAnyValidationErrors Sample.number_to_string
            Sample.string_to_number BulkForm.formFields FormSample.one_new_row
          = true) as Hany by (vm_compute; reflexivity).
  split; [exact Hany|].
  exact (proj2 (button_and_gate_agree Sample.number_to_string
                  Sample.string_to_number BulkForm.formFields FormSample.always_ok
                  FormSample.one_new_row FormSample.nothing_posted) Hany).
Defined.

Lemma one_new_row_reachable :
  FormUI.reachable Sample.number_to_string Sample.string_to_number
    BulkForm.formFields FormSample.always_ok FormSample.one_new_row.
Proof. apply FormUI.reach_add, FormUI.reach_initial. Defined.

Lemma row_ids_are_distinct_witness :
  ("id" ∉ map BulkForm.key BulkForm.formFields)
  ∧ FormUI.reachable Sample.number_to_string Sample.string_to_number
      BulkForm.formFields FormSample.always_ok FormSample.one_new_row
  ∧ NoDup (map (BulkForm.id_key Sample.number_to_string)
             (BulkForm.manualProducts FormSample.one_new_row)).
Proof.
  split; [exact formFields_no_id|]. split; [exact one_new_row_reachable|].
  exact (proj1 (row_ids_are_distinct Sample.number_to_string
                  Sample.string_to_number BulkForm.formFields FormSample.always_ok
                  FormSample.one_new_row formFields_no_id one_new_row_reachable)).
Defined.

Lemma new_row_has_no_stored_errors_witness :
  ∃ p, BulkForm.manualProducts
         (BulkForm.addEmptyProduct BulkForm.formFields FormSample.one_new_row)
       = BulkForm.manualProducts FormSample.one_new_row ++ [p]
       ∧ BulkForm.validationErrors
           (BulkForm.addEmptyProduct BulkForm.formFields FormSample.one_new_row)
         !! BulkForm.id_key Sample.number_to_string p = None.
Proof.
  destruct (new_row_has_no_stored_errors Sample.number_to_string
              Sample.string_to_number BulkForm.formFields FormSample.always_ok
              FormSample.one_new_row "name" formFields_no_id one_new_row_reachable)
    as (p & Hrows & _ & Hnone & _).
  exists p. split; [exact Hrows|exact Hnone].
Defined.


Lemma new_row_blocks_creation_witness :
  BulkForm.hasAnyValidationErrors Sample.number_to_string Sample.string_to_number
    BulkForm.formFields
    (BulkForm.addEmptyProduct BulkForm.formFields Sample.two_widgets) = true.
Proof.
  refine (proj1 (new_row_blocks_creation Sample.number_to_string
                   Sample.string_to_number BulkForm.formFields FormSample.always_ok
                   Sample.two_widgets FormSample.nothing_posted
                   FormSample.name_field formFields_NoDup formFields_no_id
                   _ eq_refl eq_refl eq_refl)).
  apply list_elem_of_In. cbn. tauto.
Defined.

Lemma togglePasswordVisibility_twice_witness :
  "manual_2" ≠ "manual_1"
  ∧ FormUI.passwordShown "manual_2"
      (FormUI.togglePasswordVisibility "manual_1" BulkForm.initial)
    = FormUI.passwordShown "manual_2" BulkForm.initial.
Proof.
  assert ("manual_2" ≠ "manual_1") as Hne by discriminate.
  split; [exact Hne|].
  exact (proj2 (proj2 (togglePasswordVisibility_twice BulkForm.initial
                         "manual_1" "manual_2")) Hne).
Defined.


Lemma removeProduct_row_witness :
  ∃ st', BulkForm.removeProduct Sample.number_to_string 0 Sample.two_widgets
         = Some st'
         ∧ BulkForm.manualProducts st'
           = [<["id" := JS.str "manual_2"]> Sample.widget].
Proof.
  destruct (proj1 (removeProduct_row Sample.number_to_string Sample.two_widgets 0)
              Sample.widget eq_refl) as (st' & Hrm & Hrows & _).
  exists st'. split; [exact Hrm|exact Hrows].
Defined.

Lemma marks_length log : String.length (ErrorLogSample.marks log) = S (length log).
Proof. induction log as [|e log IH]; cbn; [reflexivity|]. rewrite IH. reflexivity. Qed.

Lemma sample_json_round_trip log :
  ErrorLogSample.parse (ErrorLogSample.stringify log) = Some log
  ∧ ErrorLogSample.stringify log ≠ "".
Proof.
  split; [|discriminate]. cbn. rewrite marks_length. cbn. rewrite Nat.sub_0_r.
  f_equal. induction log as [|[] log IH]; cbn; [reflexivity|]. f_equal. exact IH.
Qed.

Lemma loadErrorLog_after_logError_witness :
  ErrorLog.loadErrorLog ErrorLogSample.parse
    (ErrorLog.logError ErrorLogSample.stringify ErrorLogSample.accepts_all
       tt ErrorLog.new ∅).2
  = [tt].
Proof.
  exact (proj1 (loadErrorLog_after_logError ErrorLogSample.stringify
                  ErrorLogSample.parse ErrorLogSample.accepts_all tt
                  ErrorLog.new ∅ sample_json_round_trip) eq_refl).
Defined.

Lemma loadErrorLog_empty_witness :
  ErrorLogSample.parse "oops" = None
  ∧ ErrorLog.loadErrorLog ErrorLogSample.parse
      (<["app_error_log" := "oops"]> ∅) = [].
Proof.
  split; [reflexivity|].
  exact (proj2 (proj2 (loadErrorLog_empty ErrorLogSample.parse
                         (@ErrorLog.new unit) ∅ "oops")) eq_refl).
Defined.

Lemma item_url_ignores_endpoint_witness :
  Service.buildUrl "/products" (Some "low-stock") = "/products/low-stock".
Proof.
  exact (proj2 (proj2 (proj2 (proj2 (proj2 (proj2
           (item_url_ignores_endpoint "/products" "7" "low-stock"))))))
           eq_refl ltac:(discriminate)).
Defined.

(** ** The retries of the error boundary *)

Section ErrorBoundaryFacts.
Import ErrorBoundary.
Variable p : props.

Lemma step_uses_a_retry ev st :
  (autoRetryTimer st = true → (retryCount st < maxRetries p)%Z) →
  (autoRetryTimer (step p ev st).1 = true →
   (retryCount (step p ev st).1 < maxRetries p)%Z)
  ∧ (Z.of_nat (match ev with
               | second => length (step p ev st).2
               | _ => 0%nat
               end)
     + Z.max 0 (maxRetries p - retryCount (step p ev st).1)
     ≤ Z.max 0 (maxRetries p - retryCount st))%Z.
Proof.
  intros Hinv. destruct ev; cbn [step].
  - unfold handleError, startAutoRetry, clearAutoRetry. cbn [fst snd retryCount].
    destruct (enableAutoRetry p); cbn [andb].
    + destruct (bool_decide (retryCount st < maxRetries p)%Z) eqn:Hlt;
        cbn [retryCount autoRetryTimer].
      * apply bool_decide_eq_true in Hlt. split; [intros _; exact Hlt|lia].
      * split; [exact Hinv|lia].
    + cbn [retryCount autoRetryTimer]. split; [exact Hinv|lia].
  - unfold tick. destruct (autoRetryTimer st) eqn:Htimer.
    + specialize (Hinv eq_refl). cbn [autoRetryCountdown].
      destruct (bool_decide (autoRetryCountdown st - 1 ≤ 0)%Z);
        cbn [retry clearAutoRetry fst snd length retryCount autoRetryTimer].
      * split; [discriminate|lia].
      * split; [intros _; exact Hinv|lia].
    + cbn [fst snd length]. split; [rewrite Htimer; discriminate|lia].
  - cbn [retry clearAutoRetry fst snd retryCount autoRetryTimer].
    split; [discriminate|lia].
  - cbn [clearAutoRetry fst snd retryCount autoRetryTimer].
    split; [discriminate|lia].
Qed.

Lemma autoRetries_bound evs st :
  (autoRetryTimer st = true → (retryCount st < maxRetries p)%Z) →
  (Z.of_nat (autoRetries p evs st) ≤ Z.max 0 (maxRetries p - retryCount st))%Z.
Proof.
  revert st. induction evs as [|ev evs IH]; intros st Hinv; [cbn; lia|].
  cbn [autoRetries]. destruct (step_uses_a_retry ev st Hinv) as [Hinv' Hstep].
  specialize (IH _ Hinv'). lia.
Qed.

(** X30: the error boundary retries on its own at most [maxRetries]
    times.  Whatever errors it catches, whenever the retry button is
    clicked and however many seconds pass, the interval starts no more
    retries than [maxRetries] (none when that is negative), and none at
    all when [enableAutoRetry] is off. *)
Theorem autoRetries_at_most_maxRetries evs :
  (Z.of_nat (autoRetries p evs initial) ≤ Z.max 0 (maxRetries p))%Z
  ∧ (enableAutoRetry p = false → autoRetries p evs initial = 0%nat).
Proof.
  split.
  - pose proof (autoRetries_bound evs initial) as H. cbn in H.
    rewrite Z.sub_0_r in H. apply H. discriminate.
  - intros Hoff.
    assert (∀ st, autoRetryTimer st = false → autoRetries p evs st = 0%nat) as H.
    { induction evs as [|ev evs' IH]; intros st Htimer; [reflexivity|].
      cbn [autoRetries]. destruct ev; cbn [step].
      - unfold handleError. rewrite Hoff. cbn. apply IH. exact Htimer.
      - unfold tick. rewrite Htimer. cbn. apply IH. exact Htimer.
      - cbn. apply IH. reflexivity.
      - cbn. apply IH. reflexivity. }
    apply H. reflexivity.
Qed.
End ErrorBoundaryFacts.

Lemma autoRetries_at_most_maxRetries_witness :
  ErrorBoundary.enableAutoRetry ErrorBoundary.default_props = false
  ∧ ErrorBoundary.autoRetries ErrorBoundary.default_props
      [ErrorBoundary.caught; ErrorBoundary.second; ErrorBoundary.second]
      ErrorBoundary.initial = 0%nat.
Proof.
  split; [reflexivity|].
  exact (proj2 (autoRetries_at_most_maxRetries ErrorBoundary.default_props
                  [ErrorBoundary.caught; ErrorBoundary.second;
                   ErrorBoundary.second]) eq_refl).
Defined.
